(** * The authentication module of autopark (src/auth/authentication.py)

    A shallow embedding of [AuthSystem]: the [users] and [auth_logs]
    tables of the SQLite database, the statements the methods execute on
    them, and the methods themselves as computations in a state monad
    over the database.

    Modelling choices.
    - The connection is open and the database file is healthy, so the
      only exception a statement raises is [sqlite3.IntegrityError]
      (UNIQUE, NOT NULL and CHECK constraints of the [users] table).
    - Every method commits before it returns, so a database value is
      the committed state between two calls.  A statement that violates
      a constraint is rolled back by SQLite and leaves the table as it
      was.
    - Time is an integer number of microseconds (the resolution of
      [datetime]); the readings of the clocks and the output of the
      random source are inputs of a call, gathered in an [env].
    - [hashlib.pbkdf2_hmac] is a parameter of the development.
    - [login_attempts] is an unbounded integer: the 64-bit range of an
      SQLite INTEGER is out of reach of a counter that starts at 0 and
      grows by one per failed login.

    The development also embeds [_replace_env_vars] of
    src/utils/config_loader.py, the substitution of environment
    variables in the values of the configuration file. *)

From Stdlib Require Import ZArith List String Ascii Bool Lia.
From Stdlib Require Import Permutation Sorted.
Import ListNotations.

Local Open Scope string_scope.
Local Open Scope Z_scope.

(** ** Tables *)

(** A row of [users].  [row_id] is the column [id]; [full_name],
    [email], [last_login] and [locked_until] are nullable. *)
Record user_row := mk_user_row {
  row_id : Z;
  username : string;
  password_hash : string;
  password_salt : string;
  role : string;
  full_name : option string;
  email : option string;
  is_active : bool;
  created_at : Z;
  last_login : option Z;
  login_attempts : Z;
  locked_until : option Z
}.

(** A row of [auth_logs], with the columns the INSERT of
    [_log_auth_action] supplies.  The position in the table stands for
    the auto-assigned [id]. *)
Record log_row := mk_log_row {
  log_user_id : option Z;
  log_username : string;
  action : string;
  ip_address : option string;
  user_agent : option string;
  success : bool
}.

(** The database: both tables and the AUTOINCREMENT counter of [users]
    (the largest [id] handed out so far, which SQLite never reuses). *)
Record db := mk_db {
  users : list user_row;
  auth_logs : list log_row;
  users_seq : Z
}.

(** What a call reads from outside the database. *)
Record env := mk_env {
  now_auth : Z;           (* datetime.now() in authenticate *)
  now_lock : Z;           (* datetime.now() in _increment_login_attempts *)
  current_timestamp : Z;  (* CURRENT_TIMESTAMP of SQLite *)
  new_salt : string       (* the sixteen characters drawn by _generate_salt *)
}.

(** The dictionary [authenticate] returns on success. *)
Record user_info := mk_user_info {
  ui_id : Z;
  ui_username : string;
  ui_role : string;
  ui_full_name : option string;
  ui_is_admin : bool;
  ui_permissions : list (string * bool)
}.

(** The keyword arguments of [update_user]: a dictionary, so each key
    occurs at most once.  A key is absent ([None]) or carries a value;
    [role=None] is [Some None].  Keys outside [allowed_fields] are in
    [kw_other], which the method skips. *)
Record kwargs := mk_kwargs {
  kw_full_name : option (option string);
  kw_email : option (option string);
  kw_role : option (option string);
  kw_is_active : option bool;
  kw_other : list string
}.

(** One [field = ?] of the SET clause built by [update_user]. *)
Inductive assignment :=
| set_full_name (v : option string)
| set_email (v : option string)
| set_role (v : option string)
| set_is_active (v : bool).

Inductive sqlite_result (A : Type) :=
| Ok (a : A)
| IntegrityError.
Arguments Ok {A} a.
Arguments IntegrityError {A}.

(** ** The state monad of the connection *)

Definition M (A : Type) : Type := db -> A * db.

Definition ret {A} (a : A) : M A := fun s => (a, s).

Definition bind {A B} (m : M A) (k : A -> M B) : M B :=
  fun s => let (a, s') := m s in k a s'.

Notation "x <- m ;; k" := (bind m (fun x => k))
  (at level 61, m at next level, right associativity).
Notation "m ;;; k" := (bind m (fun _ => k))
  (at level 61, right associativity).

Definition get_users : M (list user_row) := fun s => (users s, s).

Definition put_users (l : list user_row) : M unit :=
  fun s => (tt, mk_db l (auth_logs s) (users_seq s)).

(** ** Setters for the columns a statement assigns *)

Definition with_login_attempts (n : Z) (r : user_row) : user_row :=
  mk_user_row (row_id r) (username r) (password_hash r) (password_salt r)
    (role r) (full_name r) (email r) (is_active r) (created_at r)
    (last_login r) n (locked_until r).

Definition with_locked_until (t : option Z) (r : user_row) : user_row :=
  mk_user_row (row_id r) (username r) (password_hash r) (password_salt r)
    (role r) (full_name r) (email r) (is_active r) (created_at r)
    (last_login r) (login_attempts r) t.

Definition with_last_login (t : option Z) (r : user_row) : user_row :=
  mk_user_row (row_id r) (username r) (password_hash r) (password_salt r)
    (role r) (full_name r) (email r) (is_active r) (created_at r)
    t (login_attempts r) (locked_until r).

Definition with_password (h salt : string) (r : user_row) : user_row :=
  mk_user_row (row_id r) (username r) h salt
    (role r) (full_name r) (email r) (is_active r) (created_at r)
    (last_login r) (login_attempts r) (locked_until r).

Definition with_full_name (v : option string) (r : user_row) : user_row :=
  mk_user_row (row_id r) (username r) (password_hash r) (password_salt r)
    (role r) v (email r) (is_active r) (created_at r)
    (last_login r) (login_attempts r) (locked_until r).

Definition with_email (v : option string) (r : user_row) : user_row :=
  mk_user_row (row_id r) (username r) (password_hash r) (password_salt r)
    (role r) (full_name r) v (is_active r) (created_at r)
    (last_login r) (login_attempts r) (locked_until r).

Definition with_role (v : string) (r : user_row) : user_row :=
  mk_user_row (row_id r) (username r) (password_hash r) (password_salt r)
    v (full_name r) (email r) (is_active r) (created_at r)
    (last_login r) (login_attempts r) (locked_until r).

Definition with_is_active (v : bool) (r : user_row) : user_row :=
  mk_user_row (row_id r) (username r) (password_hash r) (password_salt r)
    (role r) (full_name r) (email r) v (created_at r)
    (last_login r) (login_attempts r) (locked_until r).

(** ** Constraints of the [users] table *)

(** [role IN ('admin', 'user')], also the test at the head of
    [create_user]. *)
Definition valid_role (r : string) : bool :=
  existsb (String.eqb r) ["admin"; "user"].

(** [username TEXT UNIQUE]: is the name taken? *)
Definition username_taken (name : string) (l : list user_row) : bool :=
  existsb (fun r => String.eqb (username r) name) l.

(** ** Statements *)

(** [UPDATE users SET ... WHERE id = ?] for assignments that cannot
    violate a constraint. *)
Definition update_where_id (uid : Z) (f : user_row -> user_row) : M unit :=
  l <- get_users ;;
  put_users (map (fun r => if row_id r =? uid then f r else r) l).

(** [UPDATE users SET ... WHERE username = ?], likewise. *)
Definition update_where_username (name : string) (f : user_row -> user_row)
  : M unit :=
  l <- get_users ;;
  put_users (map (fun r => if String.eqb (username r) name then f r else r) l).

(** [SELECT ... FROM users WHERE username = ? AND is_active = 1]
    followed by [fetchone()]. *)
Definition select_active_user (name : string) : M (option user_row) :=
  l <- get_users ;;
  ret (find (fun r => String.eqb (username r) name && is_active r) l).

(** [SELECT ... FROM users WHERE id = ?] followed by [fetchone()]. *)
Definition select_by_id (uid : Z) : M (option user_row) :=
  l <- get_users ;;
  ret (find (fun r => row_id r =? uid) l).

(** The INSERT of [create_user].  The new row takes the next [id] and
    the column defaults; a taken username or a role outside the CHECK
    raises [IntegrityError] and nothing is written.  On success the
    result is [last_insert_rowid()]. *)
Definition insert_user (e : env) (name hash salt rl : string)
    (fname mail : option string) : M (sqlite_result Z) :=
  fun s =>
    if username_taken name (users s) || negb (valid_role rl)
    then (IntegrityError, s)
    else
      let uid := users_seq s + 1 in
      let r := mk_user_row uid name hash salt rl fname mail true
                 (current_timestamp e) None 0 None in
      (Ok uid, mk_db (users s ++ [r]) (auth_logs s) uid).

(** The effect of one assignment on a row; [None] when it breaks
    NOT NULL. *)
Definition assign (a : assignment) (r : user_row) : option user_row :=
  match a with
  | set_full_name v => Some (with_full_name v r)
  | set_email v => Some (with_email v r)
  | set_role (Some v) => Some (with_role v r)
  | set_role None => None
  | set_is_active v => Some (with_is_active v r)
  end.

(** A row after the whole SET clause, checked against the CHECK
    constraint on [role]. *)
Fixpoint assign_all (asgs : list assignment) (r : user_row)
  : option user_row :=
  match asgs with
  | [] => if valid_role (role r) then Some r else None
  | a :: rest =>
      match assign a r with
      | Some r' => assign_all rest r'
      | None => None
      end
  end.

(** The rows of an UPDATE with the WHERE clause [username = ?]: the
    statement fails as a whole as soon as one matching row breaks a
    constraint. *)
Fixpoint update_rows (name : string) (asgs : list assignment)
    (l : list user_row) : option (list user_row) :=
  match l with
  | [] => Some []
  | r :: rest =>
      if String.eqb (username r) name then
        match assign_all asgs r, update_rows name asgs rest with
        | Some r', Some rest' => Some (r' :: rest')
        | _, _ => None
        end
      else
        match update_rows name asgs rest with
        | Some rest' => Some (r :: rest')
        | None => None
        end
  end.

(** The UPDATE of [update_user]. *)
Definition update_set_where_username (name : string)
    (asgs : list assignment) : M (sqlite_result unit) :=
  fun s =>
    match update_rows name asgs (users s) with
    | Some l => (Ok tt, mk_db l (auth_logs s) (users_seq s))
    | None => (IntegrityError, s)
    end.

(** [DELETE FROM users WHERE username = ?]; the result is
    [cursor.rowcount]. *)
Definition delete_where_username (name : string) : M Z :=
  l <- get_users ;;
  put_users (filter (fun r => negb (String.eqb (username r) name)) l) ;;;
  ret (Z.of_nat
         (List.length (filter (fun r => String.eqb (username r) name) l))).

(** ** The methods of [AuthSystem] *)

(** [timedelta(minutes=30)], in microseconds. *)
Definition lock_duration : Z := 30 * 60 * 1000000.

(** The test [locked_until and datetime.now() < locked_until_dt] of
    [authenticate]. *)
Definition locked_at (now : Z) (lu : option Z) : bool :=
  match lu with
  | Some t => now <? t
  | None => false
  end.

(** The two dictionaries of [_get_user_permissions]. *)
Definition _get_user_permissions (rl : string) : list (string * bool) :=
  if String.eqb rl "admin" then
    [ ("can_create", true); ("can_read", true); ("can_update", true);
      ("can_delete", true);
      ("can_manage_users", true); ("can_manage_personnel", true);
      ("can_manage_vehicles", true); ("can_manage_routes", true);
      ("can_manage_journal", true); ("can_view_reports", true);
      ("can_generate_reports", true); ("can_export_data", true);
      ("can_configure_system", true); ("can_view_logs", true);
      ("can_backup_restore", true) ]
  else
    [ ("can_create", false); ("can_read", true); ("can_update", true);
      ("can_delete", false);
      ("can_manage_users", false); ("can_manage_personnel", false);
      ("can_manage_vehicles", false); ("can_manage_routes", false);
      ("can_manage_journal", true); ("can_view_reports", true);
      ("can_generate_reports", true); ("can_export_data", false);
      ("can_configure_system", false); ("can_view_logs", false);
      ("can_backup_restore", false) ].

(** [permissions[key]] *)
Fixpoint perm (key : string) (d : list (string * bool)) : option bool :=
  match d with
  | [] => None
  | (k, v) :: rest => if String.eqb k key then Some v else perm key rest
  end.

(** The INSERT into [auth_logs]. *)
Definition _log_auth_action (user_id : option Z) (name act : string)
    (ok : bool) (ip ua : option string) : M unit :=
  fun s =>
    (tt, mk_db (users s)
           (auth_logs s ++ [mk_log_row user_id name act ip ua ok])
           (users_seq s)).

(** The counter goes up by one; the row is read back and, from five
    attempts on, locked for thirty minutes from now.  When no row has
    the id, [fetchone()[0]] raises and the handler swallows it. *)
Definition _increment_login_attempts (e : env) (user_id : Z) : M unit :=
  update_where_id user_id
    (fun r => with_login_attempts (login_attempts r + 1) r) ;;;
  row <- select_by_id user_id ;;
  match row with
  | Some r =>
      if 5 <=? login_attempts r
      then update_where_id user_id
             (with_locked_until (Some (now_lock e + lock_duration)))
      else ret tt
  | None => ret tt
  end.

Definition _reset_login_attempts (user_id : Z) : M unit :=
  update_where_id user_id
    (fun r => with_locked_until None (with_login_attempts 0 r)).

Definition _update_last_login (e : env) (user_id : Z) : M unit :=
  update_where_id user_id (with_last_login (Some (current_timestamp e))).

(** The allow-listed keys present in [kwargs], as [update_user]
    collects them in [update_fields] and [update_values]. *)
Definition opt_to_list {A} (o : option A) : list A :=
  match o with
  | Some a => [a]
  | None => []
  end.

Definition update_fields (k : kwargs) : list assignment :=
  opt_to_list (option_map set_full_name (kw_full_name k))
  ++ opt_to_list (option_map set_email (kw_email k))
  ++ opt_to_list (option_map set_role (kw_role k))
  ++ opt_to_list (option_map set_is_active (kw_is_active k)).

(** An IntegrityError of the UPDATE falls to [except Exception]. *)
Definition update_user (name : string) (k : kwargs) : M bool :=
  match update_fields k with
  | [] => ret false
  | asgs =>
      res <- update_set_where_username name asgs ;;
      match res with
      | Ok _ => ret true
      | IntegrityError => ret false
      end
  end.

(** Foreign keys are not enforced on this connection (no
    [PRAGMA foreign_keys]), so [auth_logs] keeps its rows. *)
Definition delete_user (name : string) : M bool :=
  affected <- delete_where_username name ;;
  ret (0 <? affected).

(** The empty schema of [_init_database]. *)
Definition empty_db : db := mk_db [] [] 0.

Section AuthSystem.

(** [_hash_password password salt]: PBKDF2-HMAC-SHA256 with 100000
    iterations, in hexadecimal. *)
Variable _hash_password : string -> string -> string.

Definition create_user (e : env) (name password rl : string)
    (fname mail : option string) : M bool :=
  if negb (valid_role rl) then ret false
  else
    let salt := new_salt e in
    let hash := _hash_password password salt in
    res <- insert_user e name hash salt rl fname mail ;;
    match res with
    | Ok user_id =>
        _log_auth_action (Some user_id) name "create_user" true None None ;;;
        ret true
    | IntegrityError => ret false
    end.

Definition authenticate (e : env) (name password : string)
    (ip ua : option string) : M (option user_info) :=
  user_data <- select_active_user name ;;
  match user_data with
  | None =>
      _log_auth_action None name "login" false ip ua ;;;
      ret None
  | Some r =>
      let user_id := row_id r in
      if locked_at (now_auth e) (locked_until r) then
        _log_auth_action (Some user_id) name "login_blocked" false ip ua ;;;
        ret None
      else
        let input_hash := _hash_password password (password_salt r) in
        if String.eqb input_hash (password_hash r) then
          _reset_login_attempts user_id ;;;
          _update_last_login e user_id ;;;
          let info :=
            mk_user_info user_id (username r) (role r) (full_name r)
              (String.eqb (role r) "admin")
              (_get_user_permissions (role r)) in
          _log_auth_action (Some user_id) name "login" true ip ua ;;;
          ret (Some info)
        else
          _increment_login_attempts e user_id ;;;
          _log_auth_action (Some user_id) name "login" false ip ua ;;;
          ret None
  end.

Definition change_password (e : env) (name old_password new_password : string)
  : M bool :=
  info <- authenticate e name old_password None None ;;
  match info with
  | None => ret false
  | Some ui =>
      let salt := new_salt e in
      let new_password_hash := _hash_password new_password salt in
      update_where_username name
        (fun r => with_locked_until None
                    (with_login_attempts 0
                       (with_password new_password_hash salt r))) ;;;
      _log_auth_action (Some (ui_id ui)) name "change_password" true
        None None ;;;
      ret true
  end.

(** The two accounts seeded on a first start, when [users] is empty. *)
Definition _create_default_users (e1 e2 : env) : M unit :=
  l <- get_users ;;
  if (Z.of_nat (List.length l) =? 0) then
    create_user e1 "admin" "admin123" "admin"
      (Some "Администратор Системы") (Some "admin@autopark.local") ;;;
    create_user e2 "user" "user123" "user"
      (Some "Оператор Автопарка") (Some "user@autopark.local") ;;;
    ret tt
  else ret tt.

End AuthSystem.

(** A stand-in for the digest, to run the model on concrete data. *)
Definition toy_hash (password salt : string) : string :=
  salt ++ "$" ++ password.

Definition env0 : env := mk_env 1000 1001 7 "saltsaltsaltsalt".
Definition env1 : env := mk_env 2000 2001 8 "pepperpepperpepp".

(** The database after the first start of the application. *)
Definition seeded_db : db :=
  Eval vm_compute in snd (_create_default_users toy_hash env0 env1 empty_db).


(** ** Reading the tables *)

(** The account of a username: the row of [users] that carries it. *)
Definition account (name : string) (s : db) : option user_row :=
  find (fun r => String.eqb (username r) name) (users s).

(** A database with one more row in [auth_logs]. *)
Definition logged (entry : log_row) (s : db) : db :=
  mk_db (users s) (auth_logs s ++ [entry]) (users_seq s).

(** A database whose rows with a given [id] went through [f]. *)
Definition touched (uid : Z) (f : user_row -> user_row) (s : db) : db :=
  mk_db (map (fun r => if row_id r =? uid then f r else r) (users s))
    (auth_logs s) (users_seq s).

(** What a failed password check does to the row. *)
Definition after_failure (e : env) (r : user_row) : user_row :=
  let r' := with_login_attempts (login_attempts r + 1) r in
  if 5 <=? login_attempts r'
  then with_locked_until (Some (now_lock e + lock_duration)) r'
  else r'.

(** What a successful login does to the row. *)
Definition after_success (e : env) (r : user_row) : user_row :=
  with_last_login (Some (current_timestamp e))
    (with_locked_until None (with_login_attempts 0 r)).

(** The columns no login ever writes. *)
Definition credentials (r : user_row)
  : Z * string * string * string * string * bool :=
  (row_id r, username r, password_hash r, password_salt r, role r,
   is_active r).

(** ** Well-formed databases *)

(** What the schema and the methods maintain on a row: the CHECK on
    [role], a counter that is not negative, and a lock only from five
    failed attempts on. *)
Definition row_ok (r : user_row) : Prop :=
  valid_role (role r) = true /\
  0 <= login_attempts r /\
  (locked_until r <> None -> 5 <= login_attempts r).

Record store_ok (s : db) : Prop := mk_store_ok {
  ok_names : NoDup (map username (users s));
  ok_ids : NoDup (map row_id (users s));
  ok_seq : Forall (fun r => row_id r <= users_seq s) (users s);
  ok_rows : Forall row_ok (users s)
}.

(** ** Runs of the system *)

(** One call of a public method that writes, on any arguments. *)
Inductive step (hash : string -> string -> string) : db -> db -> Prop :=
| step_create_user e name password rl fname mail s :
    step hash s (snd (create_user hash e name password rl fname mail s))
| step_authenticate e name password ip ua s :
    step hash s (snd (authenticate hash e name password ip ua s))
| step_change_password e name old_password new_password s :
    step hash s (snd (change_password hash e name old_password new_password s))
| step_update_user name k s :
    step hash s (snd (update_user name k s))
| step_delete_user name s :
    step hash s (snd (delete_user name s)).

(** The databases the methods can produce from the empty schema. *)
Inductive reachable (hash : string -> string -> string) : db -> Prop :=
| reachable_empty : reachable hash empty_db
| reachable_step s s' :
    reachable hash s -> step hash s s' -> reachable hash s'.

(** ** Sample databases *)

(** Failed logins of ["user"] on the seeded database, all read at the
    clock of [env0]. *)
Fixpoint failed_logins (n : nat) (s : db) : db :=
  match n with
  | O => s
  | S k =>
      snd (authenticate toy_hash env0 "user" "guess" None None
             (failed_logins k s))
  end.

(** Four failures: one short of the lock. *)
Definition strained_db : db := Eval vm_compute in failed_logins 4 seeded_db.

(** Five failures: ["user"] is locked until [1001 + 30 min]. *)
Definition locked_db : db := Eval vm_compute in failed_logins 5 seeded_db.

(** A clock inside the lock window and one past its end. *)
Definition env_inside : env := mk_env 5000 5001 9 "0123456789abcdef".
Definition env_past : env :=
  mk_env 1800002000 1800002001 10 "fedcba9876543210".

(** ["user"] deactivated by an administrator. *)
Definition retired_db : db :=
  Eval vm_compute in
    snd (update_user "user" (mk_kwargs None None None (Some false) [])
           seeded_db).

(** ** Reading accounts *)

(** The dictionary [get_user_info] and [list_users] build from a row:
    neither the hash nor the salt nor the lockout columns are in it. *)
Record user_summary := mk_user_summary {
  us_id : Z;
  us_username : string;
  us_role : string;
  us_full_name : option string;
  us_email : option string;
  us_is_active : bool;
  us_created_at : Z;
  us_last_login : option Z
}.

Definition summary (r : user_row) : user_summary :=
  mk_user_summary (row_id r) (username r) (role r) (full_name r) (email r)
    (is_active r) (created_at r) (last_login r).

(** [SELECT ... FROM users WHERE username = ?], without the test on
    [is_active] that [authenticate] has. *)
Definition get_user_info (name : string) : M (option user_summary) :=
  l <- get_users ;;
  ret (option_map summary
         (find (fun r => String.eqb (username r) name) l)).

(** [ORDER BY username] under the BINARY collation: bytes compared in
    order, a proper prefix first.  Rows with the same username, which
    the UNIQUE constraint rules out, keep their table order. *)
Fixpoint insert_by_username (r : user_row) (l : list user_row)
  : list user_row :=
  match l with
  | [] => [r]
  | x :: rest =>
      if String.leb (username r) (username x) then r :: l
      else x :: insert_by_username r rest
  end.

Definition order_by_username (l : list user_row) : list user_row :=
  fold_right insert_by_username [] l.

Definition list_users : M (list user_summary) :=
  l <- get_users ;;
  ret (map summary (order_by_username l)).

(** A row after the allow-listed keys of [kwargs] were assigned; a key
    that is absent, and [role=None], leave the column as it is. *)
Definition updated (k : kwargs) (r : user_row) : user_row :=
  let r1 := match kw_full_name k with
            | Some v => with_full_name v r
            | None => r
            end in
  let r2 := match kw_email k with
            | Some v => with_email v r1
            | None => r1
            end in
  let r3 := match kw_role k with
            | Some (Some v) => with_role v r2
            | _ => r2
            end in
  match kw_is_active k with
  | Some v => with_is_active v r3
  | None => r3
  end.

(** The columns that no login writes. *)
Definition profile (r : user_row)
  : Z * string * string * string * string
    * option string * option string * bool * Z :=
  (row_id r, username r, password_hash r, password_salt r, role r,
   full_name r, email r, is_active r, created_at r).

(** The lockout columns. *)
Definition lock_state (r : user_row) : Z * option Z :=
  (login_attempts r, locked_until r).

(** Logins on one username, one after the other, each with its own
    clock readings and password. *)
Fixpoint login_run (hash : string -> string -> string)
    (tries : list (env * string)) (name : string) (s : db) : db :=
  match tries with
  | [] => s
  | (e, password) :: rest =>
      login_run hash rest name
        (snd (authenticate hash e name password None None s))
  end.

(** ** Salts *)

(** [string.ascii_letters + string.digits] *)
Definition alphabet : string :=
  "abcdefghijklmnopqrstuvwxyzABCDEFGHIJKLMNOPQRSTUVWXYZ0123456789".

(** [secrets.choice(seq)]: the element at a random index below
    [len(seq)]; [rand] is the number the random source gives. *)
Definition choice (rand : nat) (seq : string) : ascii :=
  match String.get (rand mod String.length seq) seq with
  | Some c => c
  | None => Ascii.zero
  end.

(** Sixteen draws; [rand i] feeds the draw of round [i]. *)
Definition _generate_salt (rand : nat -> nat) : string :=
  string_of_list_ascii
    (map (fun i => choice (rand i) alphabet) (List.seq 0 16)).

Definition is_alnum (c : ascii) : bool :=
  let n := nat_of_ascii c in
  ((97 <=? n) && (n <=? 122) || (65 <=? n) && (n <=? 90)
   || (48 <=? n) && (n <=? 57))%nat.

(** ** Environment variables in the configuration
    (src/utils/config_loader.py) *)

(** The text up to the first closing brace, and the text after it. *)
Fixpoint until_brace (s : string) : option (string * string) :=
  match s with
  | EmptyString => None
  | String c rest =>
      if Ascii.eqb c "}" then Some (EmptyString, rest)
      else
        match until_brace rest with
        | Some (name, after) => Some (String c name, after)
        | None => None
        end
  end.

(** A match of the pattern [\$\{([^}]+)\}] at the head of the text:
    group 1 and the text that follows the match.  The group is the
    longest run without a closing brace, it must not be empty and a
    closing brace must end it. *)
Definition match_here (s : string) : option (string * string) :=
  match s with
  | String c1 (String c2 rest) =>
      if Ascii.eqb c1 "$" && Ascii.eqb c2 "{" then
        match until_brace rest with
        | Some (String c name, after) => Some (String c name, after)
        | _ => None
        end
      else None
  | _ => None
  end.

(** [replace_match]: the value of the variable, or the match itself
    when the variable is not set. *)
Definition replace_match (env_vars : string -> option string)
    (var_name : string) : string :=
  match env_vars var_name with
  | Some value => value
  | None => "${" ++ var_name ++ "}"
  end.

(** [re.sub(pattern, replace_match, text)]: the matches from left to
    right, none overlapping another, what a replacement yields is not
    scanned again.  One unit of fuel per character is enough. *)
Fixpoint re_sub (env_vars : string -> option string) (fuel : nat)
    (text : string) : string :=
  match fuel with
  | O => text
  | S fuel' =>
      match match_here text with
      | Some (name, after) =>
          replace_match env_vars name ++ re_sub env_vars fuel' after
      | None =>
          match text with
          | EmptyString => EmptyString
          | String c rest => String c (re_sub env_vars fuel' rest)
          end
      end
  end.

(** [text] is [None] for an XML element without text. *)
Definition _replace_env_vars (env_vars : string -> option string)
    (text : option string) : option string :=
  match text with
  | None => None
  | Some EmptyString => Some EmptyString
  | Some t => Some (re_sub env_vars (String.length t) t)
  end.

(** An environment for the examples. *)
Definition sample_env (var_name : string) : option string :=
  if String.eqb var_name "DB_HOST" then Some "db.autopark.local"
  else if String.eqb var_name "DB_PORT" then Some "5432"
  else if String.eqb var_name "NESTED" then Some "${DB_HOST}"
  else None.

(** ** Lists of rows *)

Lemma find_map_commute (p : user_row -> bool) (f : user_row -> user_row)
    (l : list user_row) :
  (forall r, p (f r) = p r) ->
  find p (map f l) = option_map f (find p l).
Proof.
  intros Hp. induction l as [|x l IH]; simpl; [reflexivity|].
  rewrite Hp. destruct (p x); [reflexivity | exact IH].
Qed.

Lemma find_conj (p q : user_row -> bool) (l : list user_row) (r : user_row) :
  find p l = Some r -> q r = true ->
  find (fun x => p x && q x) l = Some r.
Proof.
  induction l as [|x l IH]; simpl; [discriminate|].
  destruct (p x) eqn:Hpx; simpl.
  - intros [= ->] Hq. now rewrite Hq.
  - exact IH.
Qed.

Lemma find_none_all (p : user_row -> bool) (l : list user_row) :
  (forall r, In r l -> p r = false) -> find p l = None.
Proof.
  induction l as [|x l IH]; simpl; intros H; [reflexivity|].
  rewrite (H x (or_introl eq_refl)). apply IH. intros r Hr. apply H. now right.
Qed.

Lemma nodup_key_eq {K} (key : user_row -> K) (l : list user_row)
    (a b : user_row) :
  NoDup (map key l) -> In a l -> In b l -> key a = key b -> a = b.
Proof.
  induction l as [|x l IH]; simpl; [contradiction|].
  intros Hnd [Ha|Ha] [Hb|Hb] Hk; inversion Hnd as [|? ? Hnot Hnd']; subst.
  - reflexivity.
  - exfalso. apply Hnot. rewrite Hk. now apply in_map.
  - exfalso. apply Hnot. rewrite <- Hk. now apply in_map.
  - now apply IH.
Qed.

Lemma find_by_id (l : list user_row) (r : user_row) :
  NoDup (map row_id l) -> In r l ->
  find (fun x => row_id x =? row_id r) l = Some r.
Proof.
  intros Hnd Hin.
  destruct (find (fun x => row_id x =? row_id r) l) as [x|] eqn:Hf.
  - apply find_some in Hf. destruct Hf as [Hx Heq].
    apply Z.eqb_eq in Heq. f_equal.
    now apply (nodup_key_eq row_id l x r).
  - apply (find_none _ _ Hf) in Hin. now rewrite Z.eqb_refl in Hin.
Qed.

Lemma account_in (name : string) (s : db) (r : user_row) :
  account name s = Some r -> In r (users s) /\ username r = name.
Proof.
  unfold account. intros H. apply find_some in H.
  destruct H as [Hin Heq]. now apply String.eqb_eq in Heq.
Qed.

(** With unique usernames the active row of a name is its account. *)
Lemma select_active_account (name : string) (s : db) (r : user_row) :
  store_ok s -> account name s = Some r ->
  fst (select_active_user name s) = if is_active r then Some r else None.
Proof.
  intros Hok Hacc. unfold select_active_user, bind, get_users, ret. simpl.
  destruct (is_active r) eqn:Hact.
  - now apply find_conj.
  - apply find_none_all. intros x Hx.
    destruct (String.eqb (username x) name) eqn:Hn; [|reflexivity].
    apply String.eqb_eq in Hn. apply account_in in Hacc.
    destruct Hacc as [Hr Hrn].
    assert (x = r) by
      (apply (nodup_key_eq username (users s)); try assumption;
       [apply Hok | congruence]).
    subst x. now rewrite Hact.
Qed.

Lemma select_active_none (name : string) (s : db) :
  account name s = None -> fst (select_active_user name s) = None.
Proof.
  unfold account, select_active_user, bind, get_users, ret. simpl. intros H.
  apply find_none_all. intros r Hr. now rewrite (find_none _ _ H r Hr).
Qed.

Lemma touched_twice (uid : Z) (f g : user_row -> user_row) (s : db) :
  (forall r, row_id (f r) = row_id r) ->
  touched uid g (touched uid f s) = touched uid (fun r => g (f r)) s.
Proof.
  intros Hf. unfold touched. simpl. f_equal. rewrite map_map.
  apply map_ext. intros r. destruct (row_id r =? uid) eqn:H.
  - now rewrite Hf, H.
  - now rewrite H.
Qed.

Lemma touched_ext (uid : Z) (f g : user_row -> user_row) (s : db) :
  (forall r, In r (users s) -> row_id r = uid -> f r = g r) ->
  touched uid f s = touched uid g s.
Proof.
  intros H. unfold touched. f_equal. apply map_ext_in. intros r Hr.
  destruct (row_id r =? uid) eqn:E; [|reflexivity].
  apply H; [assumption | now apply Z.eqb_eq].
Qed.

(** The account of a name after its rows went through [f]. *)
Lemma account_touched (name : string) (f : user_row -> user_row)
    (s : db) (r : user_row) :
  (forall x, username (f x) = username x) ->
  account name s = Some r ->
  account name (touched (row_id r) f s) = Some (f r).
Proof.
  intros Hf Hacc. unfold account, touched in *. simpl.
  rewrite find_map_commute.
  - rewrite Hacc. simpl. now rewrite Z.eqb_refl.
  - intros x. destruct (row_id x =? row_id r); [now rewrite Hf | reflexivity].
Qed.

(** The accounts of the other names stay as they were. *)
Lemma account_touched_other (name other : string)
    (f : user_row -> user_row) (s : db) (r : user_row) :
  store_ok s ->
  (forall x, username (f x) = username x) ->
  account name s = Some r -> other <> name ->
  account other (touched (row_id r) f s) = account other s.
Proof.
  intros Hok Hf Hacc Hneq. unfold account, touched. simpl.
  rewrite find_map_commute.
  - fold (account other s). destruct (account other s) as [x|] eqn:Hx;
      [|reflexivity].
    simpl. destruct (row_id x =? row_id r) eqn:E; [|reflexivity].
    exfalso. apply Z.eqb_eq in E.
    apply account_in in Hx. apply account_in in Hacc.
    destruct Hx as [Hxin Hxn], Hacc as [Hrin Hrn].
    assert (x = r) by
      (apply (nodup_key_eq row_id (users s)); try assumption; apply Hok).
    congruence.
  - intros x. destruct (row_id x =? row_id r); [now rewrite Hf | reflexivity].
Qed.

(** ** The four ways through [authenticate] *)

Section Authenticate.

Variable hash : string -> string -> string.
Variables (e : env) (name password : string) (ip ua : option string).
Variable s : db.

Lemma authenticate_unknown :
  fst (select_active_user name s) = None ->
  authenticate hash e name password ip ua s
  = (None, logged (mk_log_row None name "login" ip ua false) s).
Proof.
  unfold authenticate, select_active_user, bind, get_users, ret. simpl.
  intros ->. reflexivity.
Qed.

Lemma authenticate_blocked (r : user_row) :
  fst (select_active_user name s) = Some r ->
  locked_at (now_auth e) (locked_until r) = true ->
  authenticate hash e name password ip ua s
  = (None,
     logged (mk_log_row (Some (row_id r)) name "login_blocked" ip ua false)
       s).
Proof.
  unfold authenticate, select_active_user, bind, get_users, ret. simpl.
  intros -> ->. reflexivity.
Qed.

Lemma authenticate_match (r : user_row) :
  fst (select_active_user name s) = Some r ->
  locked_at (now_auth e) (locked_until r) = false ->
  hash password (password_salt r) = password_hash r ->
  authenticate hash e name password ip ua s
  = (Some (mk_user_info (row_id r) (username r) (role r) (full_name r)
             (String.eqb (role r) "admin")
             (_get_user_permissions (role r))),
     logged (mk_log_row (Some (row_id r)) name "login" ip ua true)
       (touched (row_id r) (after_success e) s)).
Proof.
  unfold authenticate, select_active_user, bind, get_users, ret. simpl.
  intros -> -> ->. rewrite String.eqb_refl.
  unfold _reset_login_attempts, _update_last_login, update_where_id,
    _log_auth_action, bind, get_users, put_users, ret. simpl.
  unfold logged. simpl. do 2 f_equal.
  rewrite map_map. apply map_ext. intros x.
  destruct (row_id x =? row_id r) eqn:E; simpl; now rewrite E.
Qed.

Lemma authenticate_mismatch (r : user_row) :
  NoDup (map row_id (users s)) ->
  fst (select_active_user name s) = Some r ->
  locked_at (now_auth e) (locked_until r) = false ->
  hash password (password_salt r) <> password_hash r ->
  authenticate hash e name password ip ua s
  = (None,
     logged (mk_log_row (Some (row_id r)) name "login" ip ua false)
       (touched (row_id r) (after_failure e) s)).
Proof.
  intros Hnd Hsel Hlock Hneq.
  assert (Hin : In r (users s)).
  { unfold select_active_user, bind, get_users, ret in Hsel. simpl in Hsel.
    now apply find_some in Hsel. }
  unfold authenticate, bind. 
  destruct (select_active_user name s) as [o s0] eqn:Hs0.
  assert (s0 = s) by
    (unfold select_active_user, bind, get_users, ret in Hs0; congruence).
  subst s0. simpl in Hsel. subst o. rewrite Hlock.
  apply String.eqb_neq in Hneq. rewrite Hneq.
  unfold _increment_login_attempts, bind.
  set (incr := fun x => with_login_attempts (login_attempts x + 1) x).
  assert (H1 : update_where_id (row_id r) incr s
               = (tt, touched (row_id r) incr s)) by reflexivity.
  rewrite H1.
  assert (H2 : select_by_id (row_id r) (touched (row_id r) incr s)
               = (Some (incr r), touched (row_id r) incr s)).
  { unfold select_by_id, bind, get_users, ret, touched. simpl. f_equal.
    rewrite find_map_commute.
    - rewrite (find_by_id _ _ Hnd Hin). simpl. now rewrite Z.eqb_refl.
    - intros x. destruct (row_id x =? row_id r) eqn:E; simpl; exact E. }
  rewrite H2.
  assert (Hsame : forall x, In x (users s) -> row_id x = row_id r -> x = r).
  { intros x Hx Hid. now apply (nodup_key_eq row_id (users s)). }
  assert (H3 : forall f s1, update_where_id (row_id r) f s1
                        = (tt, touched (row_id r) f s1)) by reflexivity.
  destruct (5 <=? login_attempts (incr r)) eqn:H5.
  - rewrite H3, touched_twice by reflexivity.
    rewrite (touched_ext (row_id r) _ (after_failure e) s); [reflexivity|].
    intros x Hx E. rewrite (Hsame x Hx E).
    unfold after_failure. fold (incr r). now rewrite H5.
  - rewrite (touched_ext (row_id r) incr (after_failure e) s);
      [reflexivity|].
    intros x Hx E. rewrite (Hsame x Hx E).
    unfold after_failure. fold (incr r). now rewrite H5.
Qed.

End Authenticate.

(** ** The methods keep the database well formed *)

Lemma store_ok_map (F : user_row -> user_row) (logs : list log_row) (s : db) :
  store_ok s ->
  (forall r, row_id (F r) = row_id r) ->
  (forall r, username (F r) = username r) ->
  (forall r, row_ok r -> row_ok (F r)) ->
  store_ok (mk_db (map F (users s)) logs (users_seq s)).
Proof.
  intros [Hn Hi Hs Hr] Hid Hname Hrow. constructor; simpl.
  - rewrite map_map. rewrite (map_ext _ username) by exact Hname. exact Hn.
  - rewrite map_map. rewrite (map_ext _ row_id) by exact Hid. exact Hi.
  - apply Forall_map. eapply Forall_impl; [|exact Hs].
    intros r Hle. simpl. now rewrite Hid.
  - apply Forall_map. eapply Forall_impl; [|exact Hr]. exact Hrow.
Qed.

Lemma store_ok_logged (entry : log_row) (s : db) :
  store_ok s -> store_ok (logged entry s).
Proof. intros [Hn Hi Hs Hr]. now constructor. Qed.

Lemma store_ok_touched (uid : Z) (f : user_row -> user_row) (s : db) :
  store_ok s ->
  (forall r, row_id (f r) = row_id r) ->
  (forall r, username (f r) = username r) ->
  (forall r, row_ok r -> row_ok (f r)) ->
  store_ok (touched uid f s).
Proof.
  intros Hok Hid Hname Hrow. unfold touched. apply store_ok_map; trivial;
    intros r; destruct (row_id r =? uid); auto.
Qed.

Lemma row_ok_after_failure (e : env) (r : user_row) :
  row_ok r -> row_ok (after_failure e r).
Proof.
  unfold row_ok, after_failure. intros (Hrole & Hnn & Hlock). simpl.
  destruct (5 <=? login_attempts r + 1) eqn:H5; simpl.
  - apply Z.leb_le in H5. repeat split; trivial; lia.
  - apply Z.leb_gt in H5. repeat split; trivial; [lia|].
    intros Hl. specialize (Hlock Hl). lia.
Qed.

Lemma row_ok_after_success (e : env) (r : user_row) :
  row_ok r -> row_ok (after_success e r).
Proof.
  unfold row_ok, after_success. intros (Hrole & _ & _). simpl.
  repeat split; trivial; [lia | congruence].
Qed.

Lemma after_failure_id (e : env) (r : user_row) :
  row_id (after_failure e r) = row_id r.
Proof. unfold after_failure. now destruct (5 <=? _). Qed.

Lemma after_failure_username (e : env) (r : user_row) :
  username (after_failure e r) = username r.
Proof. unfold after_failure. now destruct (5 <=? _). Qed.

Lemma after_failure_credentials (e : env) (r : user_row) :
  credentials (after_failure e r) = credentials r.
Proof. unfold after_failure. now destruct (5 <=? _). Qed.

Lemma select_active_state (name : string) (s : db) :
  select_active_user name s = (fst (select_active_user name s), s).
Proof. reflexivity. Qed.

Section Preservation.

Variable hash : string -> string -> string.

Lemma authenticate_store_ok e name password ip ua s :
  store_ok s -> store_ok (snd (authenticate hash e name password ip ua s)).
Proof.
  intros Hok.
  destruct (fst (select_active_user name s)) as [r|] eqn:Hsel.
  - destruct (locked_at (now_auth e) (locked_until r)) eqn:Hlock.
    + rewrite (authenticate_blocked hash e name password ip ua s r Hsel Hlock).
      now apply store_ok_logged.
    + destruct (String.eqb (hash password (password_salt r))
                  (password_hash r)) eqn:Hh.
      * apply String.eqb_eq in Hh.
        rewrite (authenticate_match hash e name password ip ua s r
                   Hsel Hlock Hh).
        apply store_ok_logged, store_ok_touched; trivial.
        apply row_ok_after_success.
      * apply String.eqb_neq in Hh.
        rewrite (authenticate_mismatch hash e name password ip ua s r
                   (ok_ids s Hok) Hsel Hlock Hh).
        apply store_ok_logged, store_ok_touched; trivial.
        -- apply after_failure_id.
        -- apply after_failure_username.
        -- apply row_ok_after_failure.
  - rewrite (authenticate_unknown hash e name password ip ua s Hsel).
    now apply store_ok_logged.
Qed.

Lemma create_user_store_ok e name password rl fname mail s :
  store_ok s ->
  store_ok (snd (create_user hash e name password rl fname mail s)).
Proof.
  intros Hok. unfold create_user.
  destruct (valid_role rl) eqn:Hrl; simpl; [|exact Hok].
  unfold bind, insert_user. rewrite Hrl. simpl.
  destruct (username_taken name (users s)) eqn:Htaken; simpl; [exact Hok|].
  destruct Hok as [Hn Hi Hs Hr].
  constructor; simpl.
  - rewrite map_app. simpl. apply NoDup_app; trivial.
    + constructor; [intros []| constructor].
    + intros x Hx [<-|[]]. apply in_map_iff in Hx.
      destruct Hx as (r & Hrn & Hrin).
      unfold username_taken in Htaken.
      assert (Hex : existsb (fun r0 => String.eqb (username r0) (username r))
                      (users s) = true).
      { apply existsb_exists. exists r. split; trivial.
        apply String.eqb_refl. }
      rewrite Hrn in Hex. congruence.
  - rewrite map_app. simpl. apply NoDup_app; trivial.
    + constructor; [intros []| constructor].
    + intros x Hx [<-|[]]. apply in_map_iff in Hx.
      destruct Hx as (r & Hrn & Hrin).
      rewrite Forall_forall in Hs. specialize (Hs r Hrin). lia.
  - apply Forall_app. split.
    + eapply Forall_impl; [|exact Hs]. simpl. intros; lia.
    + constructor; [simpl; lia | constructor].
  - apply Forall_app. split; trivial.
    constructor; [|constructor]. unfold row_ok. simpl.
    repeat split; trivial; [lia | congruence].
Qed.

End Preservation.

Lemma assign_keeps (a : assignment) (r r' : user_row) :
  assign a r = Some r' ->
  row_id r' = row_id r /\ username r' = username r /\
  password_hash r' = password_hash r /\ password_salt r' = password_salt r /\
  login_attempts r' = login_attempts r /\ locked_until r' = locked_until r.
Proof.
  destruct a as [v|v|[v|]|v]; simpl; intros [= <-]; repeat split.
Qed.

Lemma assign_all_keeps (asgs : list assignment) (r r' : user_row) :
  assign_all asgs r = Some r' ->
  (row_id r' = row_id r /\ username r' = username r /\
   password_hash r' = password_hash r /\ password_salt r' = password_salt r /\
   login_attempts r' = login_attempts r /\ locked_until r' = locked_until r)
  /\ valid_role (role r') = true.
Proof.
  revert r. induction asgs as [|a asgs IH]; simpl; intros r.
  - destruct (valid_role (role r)) eqn:Hv; [|discriminate].
    intros [= <-]. repeat split. exact Hv.
  - destruct (assign a r) as [r1|] eqn:Ha; [|discriminate].
    intros H. apply IH in H. apply assign_keeps in Ha.
    destruct H as [(?&?&?&?&?&?) ?], Ha as (?&?&?&?&?&?).
    repeat split; congruence.
Qed.

Lemma update_rows_keeps (name : string) (asgs : list assignment)
    (l l' : list user_row) :
  update_rows name asgs l = Some l' ->
  map row_id l' = map row_id l /\ map username l' = map username l /\
  (Forall row_ok l -> Forall row_ok l').
Proof.
  revert l'. induction l as [|r l IH]; simpl; intros l'.
  - intros [= <-]. repeat split. trivial.
  - destruct (String.eqb (username r) name).
    + destruct (assign_all asgs r) as [r'|] eqn:Hr; [|discriminate].
      destruct (update_rows name asgs l) as [rest|]; [|discriminate].
      intros [= <-]. destruct (IH rest eq_refl) as (Hi & Hn & Hf).
      apply assign_all_keeps in Hr.
      destruct Hr as [(Hid & Hnm & _ & _ & Hla & Hlu) Hv].
      simpl. repeat split; try congruence.
      intros Hall. inversion Hall as [|? ? Hrow Hrest]; subst.
      constructor; [|now apply Hf].
      unfold row_ok in *. rewrite Hla, Hlu. tauto.
    + destruct (update_rows name asgs l) as [rest|]; [|discriminate].
      intros [= <-]. destruct (IH rest eq_refl) as (Hi & Hn & Hf).
      simpl. repeat split; try congruence.
      intros Hall. inversion Hall; subst. constructor; auto.
Qed.

Lemma update_user_store_ok (name : string) (k : kwargs) (s : db) :
  store_ok s -> store_ok (snd (update_user name k s)).
Proof.
  intros Hok. unfold update_user.
  destruct (update_fields k) as [|a asgs]; [exact Hok|].
  unfold bind, update_set_where_username.
  destruct (update_rows name (a :: asgs) (users s)) as [l|] eqn:Hl;
    [|exact Hok].
  apply update_rows_keeps in Hl. destruct Hl as (Hi & Hn & Hf).
  destruct Hok as [Hnames Hids Hseq Hrows]. simpl. constructor; simpl.
  - now rewrite Hn.
  - now rewrite Hi.
  - apply Forall_forall. intros r Hr.
    assert (Hin : In (row_id r) (map row_id (users s)))
      by (rewrite <- Hi; now apply in_map).
    apply in_map_iff in Hin. destruct Hin as (r0 & Heq & Hr0).
    rewrite Forall_forall in Hseq. rewrite <- Heq. now apply Hseq.
  - now apply Hf.
Qed.

Lemma NoDup_map_filter {K} (key : user_row -> K) (p : user_row -> bool)
    (l : list user_row) :
  NoDup (map key l) -> NoDup (map key (filter p l)).
Proof.
  induction l as [|x l IH]; simpl; intros H; [constructor|].
  inversion H as [|? ? Hnot Hnd]; subst.
  destruct (p x); simpl; [|now apply IH].
  constructor; [|now apply IH].
  intros Hin. apply Hnot. apply in_map_iff in Hin.
  destruct Hin as (y & Hy & Hyin). apply filter_In in Hyin.
  rewrite <- Hy. apply in_map. tauto.
Qed.

Lemma Forall_filter_keep {P : user_row -> Prop} (p : user_row -> bool)
    (l : list user_row) :
  Forall P l -> Forall P (filter p l).
Proof.
  intros H. apply Forall_forall. intros x Hx. apply filter_In in Hx.
  rewrite Forall_forall in H. apply H. tauto.
Qed.

Lemma delete_user_store_ok (name : string) (s : db) :
  store_ok s -> store_ok (snd (delete_user name s)).
Proof.
  intros [Hn Hi Hs Hr]. unfold delete_user, delete_where_username, bind,
    get_users, put_users, ret. simpl. constructor; simpl.
  - now apply NoDup_map_filter.
  - now apply NoDup_map_filter.
  - now apply Forall_filter_keep.
  - now apply Forall_filter_keep.
Qed.

Lemma change_password_store_ok hash e name old_password new_password s :
  store_ok s ->
  store_ok (snd (change_password hash e name old_password new_password s)).
Proof.
  intros Hok. unfold change_password, bind.
  pose proof (authenticate_store_ok hash e name old_password None None s Hok)
    as Hauth.
  destruct (authenticate hash e name old_password None None s) as [[ui|] s1];
    simpl in *; [|exact Hauth].
  apply store_ok_map; trivial.
  - intros r. now destruct (String.eqb (username r) name).
  - intros r. now destruct (String.eqb (username r) name).
  - intros r Hrow. destruct (String.eqb (username r) name); trivial.
    unfold row_ok in *. simpl. repeat split; [tauto | lia | congruence].
Qed.

Lemma empty_db_ok : store_ok empty_db.
Proof. constructor; simpl; constructor. Qed.

(** Every database the methods can produce is well formed. *)
Theorem reachable_store_ok (hash : string -> string -> string) (s : db) :
  reachable hash s -> store_ok s.
Proof.
  induction 1 as [|s s' _ IH Hstep].
  - exact empty_db_ok.
  - destruct Hstep.
    + now apply create_user_store_ok.
    + now apply authenticate_store_ok.
    + now apply change_password_store_ok.
    + now apply update_user_store_ok.
    + now apply delete_user_store_ok.
Qed.

(** ** The sample databases are runs of the system *)

Lemma seeded_db_reachable : reachable toy_hash seeded_db.
Proof.
  apply (reachable_step toy_hash
           (snd (create_user toy_hash env0 "admin" "admin123" "admin"
                   (Some "Администратор Системы")
                   (Some "admin@autopark.local") empty_db))).
  - apply (reachable_step toy_hash empty_db); constructor.
  - exact (step_create_user toy_hash env1 "user" "user123" "user"
             (Some "Оператор Автопарка") (Some "user@autopark.local") _).
Qed.

Lemma failed_logins_reachable (n : nat) (s : db) :
  reachable toy_hash s -> reachable toy_hash (failed_logins n s).
Proof.
  intros H. induction n as [|n IH]; simpl; [exact H|].
  eapply reachable_step; [exact IH | constructor].
Qed.

Lemma seeded_db_ok : store_ok seeded_db.
Proof. exact (reachable_store_ok _ _ seeded_db_reachable). Qed.

Lemma strained_db_ok : store_ok strained_db.
Proof.
  exact (reachable_store_ok _ _
           (failed_logins_reachable 4 _ seeded_db_reachable)).
Qed.

Lemma locked_db_ok : store_ok locked_db.
Proof.
  exact (reachable_store_ok _ _
           (failed_logins_reachable 5 _ seeded_db_reachable)).
Qed.

Lemma retired_db_ok : store_ok retired_db.
Proof.
  apply (reachable_store_ok toy_hash).
  apply (reachable_step toy_hash seeded_db); [exact seeded_db_reachable|].
  exact (step_update_user toy_hash "user"
           (mk_kwargs None None None (Some false) []) seeded_db).
Qed.

(** ** Account creation followed by a login *)

Lemma find_app_last (p : user_row -> bool) (l : list user_row)
    (r : user_row) :
  find p l = None -> find p (l ++ [r]) = if p r then Some r else None.
Proof.
  induction l as [|x l IH]; simpl; [reflexivity|].
  destruct (p x); [discriminate | exact IH].
Qed.

Lemma not_taken_no_row (name : string) (l : list user_row)
    (q : user_row -> bool) :
  username_taken name l = false ->
  find (fun r => String.eqb (username r) name && q r) l = None.
Proof.
  unfold username_taken. induction l as [|x l IH]; simpl; [reflexivity|].
  destruct (String.eqb (username x) name); simpl; [discriminate | exact IH].
Qed.

(** C1: for a username that no row of [users] carries and a role among
    admin and user, [create_user] returns [True] and the login that
    follows with the same password succeeds; the view it returns has
    that username and role, [is_admin] is the test [role == 'admin'],
    and the permissions are the fifteen flags of the role table: all
    true for admin, and for user true exactly on can_read, can_update,
    can_manage_journal, can_view_reports and can_generate_reports. *)
Theorem create_user_then_authenticate
    (hash : string -> string -> string) (e e' : env)
    (name password rl : string) (fname mail ip ua : option string) (s : db) :
  username_taken name (users s) = false ->
  rl = "admin" \/ rl = "user" ->
  fst (create_user hash e name password rl fname mail s) = true /\
  exists info,
    fst (authenticate hash e' name password ip ua
           (snd (create_user hash e name password rl fname mail s)))
    = Some info /\
    ui_username info = name /\
    ui_role info = rl /\
    ui_is_admin info = String.eqb rl "admin" /\
    map fst (ui_permissions info)
    = [ "can_create"; "can_read"; "can_update"; "can_delete";
        "can_manage_users"; "can_manage_personnel"; "can_manage_vehicles";
        "can_manage_routes"; "can_manage_journal"; "can_view_reports";
        "can_generate_reports"; "can_export_data"; "can_configure_system";
        "can_view_logs"; "can_backup_restore" ] /\
    (rl = "admin" ->
     forall k v, In (k, v) (ui_permissions info) -> v = true) /\
    (rl = "user" ->
     forall k v, In (k, v) (ui_permissions info) ->
       v = existsb (String.eqb k)
             [ "can_read"; "can_update"; "can_manage_journal";
               "can_view_reports"; "can_generate_reports" ]).
Proof.
  intros Hfree Hrole.
  assert (Hvalid : valid_role rl = true) by (destruct Hrole; now subst).
  set (r := mk_user_row (users_seq s + 1) name (hash password (new_salt e))
              (new_salt e) rl fname mail true (current_timestamp e) None 0
              None).
  assert (Hrun : create_user hash e name password rl fname mail s
                 = (true,
                    logged (mk_log_row (Some (users_seq s + 1)) name
                              "create_user" None None true)
                      (mk_db (users s ++ [r]) (auth_logs s)
                         (users_seq s + 1)))).
  { unfold create_user. rewrite Hvalid. cbn [negb].
    unfold bind, insert_user. rewrite Hfree, Hvalid. reflexivity. }
  rewrite Hrun. simpl fst. simpl snd. split; [reflexivity|].
  match goal with |- context [authenticate _ _ _ _ _ _ ?d] => set (s1 := d) end.
  assert (Hsel : fst (select_active_user name s1) = Some r).
  { unfold select_active_user, bind, get_users, ret. simpl.
    rewrite find_app_last by now apply not_taken_no_row.
    simpl. now rewrite String.eqb_refl. }
  rewrite (authenticate_match hash e' name password ip ua s1 r Hsel
             eq_refl eq_refl).
  eexists. split; [reflexivity|]. simpl.
  repeat split.
  - destruct Hrole; now subst.
  - intros ->. simpl. intros k v H.
    repeat (destruct H as [H|H]; [now inversion H|]). destruct H.
  - intros ->. simpl. intros k v H.
    repeat (destruct H as [H|H]; [now inversion H|]). destruct H.
Qed.

Lemma create_user_then_authenticate_witness :
  fst (create_user toy_hash env_inside "dispatcher" "Secret2" "user"
         None None seeded_db) = true /\
  exists info,
    fst (authenticate toy_hash env_past "dispatcher" "Secret2" None None
           (snd (create_user toy_hash env_inside "dispatcher" "Secret2"
                   "user" None None seeded_db)))
    = Some info /\
    ui_role info = "user" /\
    perm "can_create" (ui_permissions info) = Some false /\
    perm "can_read" (ui_permissions info) = Some true.
Proof.
  destruct (create_user_then_authenticate toy_hash env_inside env_past
              "dispatcher" "Secret2" "user" None None None None seeded_db
              eq_refl (or_intror eq_refl))
    as (Hc & info & Ha & Hn & Hr & Hadm & Hkeys & Hall & Huser).
  split; [exact Hc|]. exists info. split; [exact Ha|]. split; [exact Hr|].
  vm_compute in Ha. injection Ha as <-. split; reflexivity.
Defined.

(** ** Failed password checks and the lock *)

Lemma locked_at_false (now : Z) (lu : option Z) :
  locked_at now lu = false <-> (forall t, lu = Some t -> t <= now).
Proof.
  unfold locked_at. destruct lu as [t|]; split; trivial.
  - intros H t' [= <-]. now apply Z.ltb_ge.
  - intros H. apply Z.ltb_ge. now apply H.
  - discriminate.
Qed.

Lemma locked_at_true (now : Z) (lu : option Z) :
  locked_at now lu = true <-> (exists t, lu = Some t /\ now < t).
Proof.
  unfold locked_at. destruct lu as [t|]; split.
  - intros H. exists t. split; trivial. now apply Z.ltb_lt.
  - intros (t' & [= <-] & H). now apply Z.ltb_lt.
  - discriminate.
  - intros (t' & H & _). discriminate.
Qed.

Lemma select_active_of_account (name : string) (s : db) (r : user_row) :
  store_ok s -> account name s = Some r -> is_active r = true ->
  fst (select_active_user name s) = Some r.
Proof.
  intros Hok Hacc Hact. rewrite (select_active_account name s r Hok Hacc).
  now rewrite Hact.
Qed.

Lemma account_of_select_active (name : string) (s : db) (r : user_row) :
  store_ok s -> fst (select_active_user name s) = Some r ->
  account name s = Some r /\ is_active r = true.
Proof.
  intros Hok Hsel.
  unfold select_active_user, bind, get_users, ret in Hsel. simpl in Hsel.
  apply find_some in Hsel. destruct Hsel as [Hin Hp].
  apply andb_true_iff in Hp. destruct Hp as [Hn Ha]. split; trivial.
  destruct (account name s) as [x|] eqn:Hx.
  - pose proof (select_active_account name s x Hok Hx) as Hs.
    apply account_in in Hx. destruct Hx as [Hxin Hxn].
    apply String.eqb_eq in Hn. f_equal.
    apply (nodup_key_eq username (users s)); try assumption;
      [apply Hok | congruence].
  - unfold account in Hx. apply (find_none _ _ Hx) in Hin. congruence.
Qed.

(** A wrong password on an active account outside a lock window. *)
Lemma failed_login (hash : string -> string -> string) (e : env)
    (name password : string) (ip ua : option string) (s : db)
    (r : user_row) :
  store_ok s -> account name s = Some r -> is_active r = true ->
  (forall t, locked_until r = Some t -> t <= now_auth e) ->
  hash password (password_salt r) <> password_hash r ->
  authenticate hash e name password ip ua s
  = (None,
     logged (mk_log_row (Some (row_id r)) name "login" ip ua false)
       (touched (row_id r) (after_failure e) s)).
Proof.
  intros Hok Hacc Hact Hfree Hwrong.
  apply authenticate_mismatch; trivial.
  - apply Hok.
  - now apply select_active_of_account.
  - now apply locked_at_false.
Qed.

Lemma account_logged (name : string) (entry : log_row) (s : db) :
  account name (logged entry s) = account name s.
Proof. reflexivity. Qed.

(** C3: on an existing, active account that is not locked at the time
    of the call, a login with the right username and a wrong password
    fails, raises the failed-attempt counter of that account by exactly
    one and leaves [locked_until] unset as long as the new counter is
    below five; no other account changes. *)
Theorem wrong_password_counts_once
    (hash : string -> string -> string) (e : env) (name password : string)
    (ip ua : option string) (s : db) (r : user_row) :
  store_ok s ->
  account name s = Some r ->
  is_active r = true ->
  (forall t, locked_until r = Some t -> t <= now_auth e) ->
  hash password (password_salt r) <> password_hash r ->
  fst (authenticate hash e name password ip ua s) = None /\
  exists r',
    account name (snd (authenticate hash e name password ip ua s)) = Some r' /\
    login_attempts r' = login_attempts r + 1 /\
    (login_attempts r' < 5 -> locked_until r' = None) /\
    (forall other, other <> name ->
       account other (snd (authenticate hash e name password ip ua s))
       = account other s).
Proof.
  intros Hok Hacc Hact Hfree Hwrong.
  rewrite (failed_login hash e name password ip ua s r Hok Hacc Hact Hfree
             Hwrong).
  simpl fst. simpl snd. split; [reflexivity|].
  exists (after_failure e r). rewrite account_logged.
  split; [|split; [|split]].
  - apply account_touched; trivial. apply after_failure_username.
  - unfold after_failure. now destruct (5 <=? _).
  - unfold after_failure. simpl.
    destruct (5 <=? login_attempts r + 1) eqn:H5; simpl.
    + apply Z.leb_le in H5. lia.
    + intros Hlt. destruct (locked_until r) as [t|] eqn:Hlu; [|reflexivity].
      assert (Hrow : row_ok r).
      { pose proof (ok_rows s Hok) as Hrows. rewrite Forall_forall in Hrows.
        apply Hrows. now apply account_in in Hacc. }
      destruct Hrow as (_ & _ & Hlock). rewrite Hlu in Hlock.
      assert (5 <= login_attempts r) by (apply Hlock; discriminate). lia.
  - intros other Hneq. rewrite account_logged.
    apply account_touched_other with (name := name); trivial.
    apply after_failure_username.
Qed.

Lemma wrong_password_counts_once_witness :
  fst (authenticate toy_hash env0 "user" "guess" None None seeded_db) = None /\
  exists r',
    account "user"
      (snd (authenticate toy_hash env0 "user" "guess" None None seeded_db))
    = Some r' /\
    login_attempts r' = 1 /\ locked_until r' = None.
Proof.
  destruct (wrong_password_counts_once toy_hash env0 "user" "guess" None None
              seeded_db
              (mk_user_row 2 "user" "pepperpepperpepp$user123"
                 "pepperpepperpepp" "user" (Some "Оператор Автопарка")
                 (Some "user@autopark.local") true 8 None 0 None)
              seeded_db_ok eq_refl eq_refl)
    as (Hnone & r' & Hacc & Hcount & Hfree & _).
  - discriminate.
  - discriminate.
  - split; [exact Hnone|]. exists r'. split; [exact Hacc|].
    split; [exact Hcount|]. apply Hfree. rewrite Hcount. reflexivity.
Defined.

(** C2: when a failed password check brings the failed-attempt counter
    of an account to five, [locked_until] becomes the time of that check
    plus thirty minutes; and a login on an account whose [locked_until]
    lies in the future returns [None] whatever password is supplied,
    without reading the password (the outcome is the same for every
    password and every digest function) and without touching [users],
    so the counter stays as it is. *)
Theorem lockout_after_five_failures
    (hash : string -> string -> string) (e : env) (name password : string)
    (ip ua : option string) (s : db) (r : user_row) :
  store_ok s ->
  account name s = Some r ->
  (is_active r = true ->
   (forall t, locked_until r = Some t -> t <= now_auth e) ->
   hash password (password_salt r) <> password_hash r ->
   login_attempts r + 1 = 5 ->
   exists r',
     account name (snd (authenticate hash e name password ip ua s)) = Some r' /\
     login_attempts r' = 5 /\
     locked_until r' = Some (now_lock e + 30 * 60 * 1000000))
  /\
  (forall t, locked_until r = Some t -> now_auth e < t ->
     fst (authenticate hash e name password ip ua s) = None /\
     users (snd (authenticate hash e name password ip ua s)) = users s /\
     forall hash' password',
       authenticate hash' e name password' ip ua s
       = authenticate hash e name password ip ua s).
Proof.
  intros Hok Hacc. split.
  - intros Hact Hfree Hwrong Hfive.
    rewrite (failed_login hash e name password ip ua s r Hok Hacc Hact Hfree
               Hwrong).
    simpl snd. exists (after_failure e r). rewrite account_logged.
    split; [apply account_touched; trivial; apply after_failure_username|].
    unfold after_failure. simpl. rewrite Hfive. simpl. split; trivial.
  - intros t Hlu Hnow.
    pose proof (select_active_account name s r Hok Hacc) as Hsel.
    destruct (is_active r).
    + assert (Hlock : locked_at (now_auth e) (locked_until r) = true)
        by (apply locked_at_true; eauto).
      rewrite (authenticate_blocked hash e name password ip ua s r Hsel Hlock).
      repeat split. intros hash' password'.
      now rewrite (authenticate_blocked hash' e name password' ip ua s r Hsel
                     Hlock).
    + rewrite (authenticate_unknown hash e name password ip ua s Hsel).
      repeat split. intros hash' password'.
      now rewrite (authenticate_unknown hash' e name password' ip ua s Hsel).
Qed.

Lemma lockout_after_five_failures_witness :
  (exists r',
     account "user"
       (snd (authenticate toy_hash env0 "user" "guess" None None strained_db))
     = Some r' /\
     login_attempts r' = 5 /\ locked_until r' = Some (1001 + 1800000000))
  /\
  fst (authenticate toy_hash env_inside "user" "user123" None None locked_db)
  = None /\
  users (snd (authenticate toy_hash env_inside "user" "user123" None None
                locked_db))
  = users locked_db.
Proof.
  split.
  - apply (lockout_after_five_failures toy_hash env0 "user" "guess" None None
             strained_db
             (mk_user_row 2 "user" "pepperpepperpepp$user123"
                "pepperpepperpepp" "user" (Some "Оператор Автопарка")
                (Some "user@autopark.local") true 8 None 4 None)
             strained_db_ok eq_refl); try reflexivity; discriminate.
  - destruct (lockout_after_five_failures toy_hash env_inside "user" "user123"
                None None locked_db
                (mk_user_row 2 "user" "pepperpepperpepp$user123"
                   "pepperpepperpepp" "user" (Some "Оператор Автопарка")
                   (Some "user@autopark.local") true 8 None 5
                   (Some 1800001001))
                locked_db_ok eq_refl) as [_ Hblocked].
    destruct (Hblocked 1800001001 eq_refl eq_refl) as (Hnone & Husers & _).
    split; assumption.
Defined.

(** C10: once the lock of an account has run out ([locked_until] set
    but not in the future, counter at five or more), one more login
    with a wrong password fails, raises the counter to six or more and
    sets [locked_until] to the time of that check plus thirty minutes. *)
Theorem expired_lock_relocks_at_once
    (hash : string -> string -> string) (e : env) (name password : string)
    (ip ua : option string) (s : db) (r : user_row) (t : Z) :
  store_ok s ->
  account name s = Some r ->
  is_active r = true ->
  locked_until r = Some t ->
  t <= now_auth e ->
  5 <= login_attempts r ->
  hash password (password_salt r) <> password_hash r ->
  fst (authenticate hash e name password ip ua s) = None /\
  exists r',
    account name (snd (authenticate hash e name password ip ua s)) = Some r' /\
    login_attempts r' = login_attempts r + 1 /\
    6 <= login_attempts r' /\
    locked_until r' = Some (now_lock e + 30 * 60 * 1000000).
Proof.
  intros Hok Hacc Hact Hlu Hpast Hfive Hwrong.
  assert (Hfree : forall t', locked_until r = Some t' -> t' <= now_auth e)
    by (intros t' Ht'; congruence).
  rewrite (failed_login hash e name password ip ua s r Hok Hacc Hact Hfree
             Hwrong).
  simpl fst. simpl snd. split; [reflexivity|].
  exists (after_failure e r). rewrite account_logged.
  split; [apply account_touched; trivial; apply after_failure_username|].
  unfold after_failure. simpl.
  assert (H5 : (5 <=? login_attempts r + 1) = true) by (apply Z.leb_le; lia).
  rewrite H5. simpl. repeat split; lia.
Qed.

Lemma expired_lock_relocks_at_once_witness :
  fst (authenticate toy_hash env_past "user" "guess" None None locked_db)
  = None /\
  exists r',
    account "user"
      (snd (authenticate toy_hash env_past "user" "guess" None None locked_db))
    = Some r' /\
    login_attempts r' = 6 /\
    locked_until r' = Some (1800002001 + 1800000000).
Proof.
  destruct (expired_lock_relocks_at_once toy_hash env_past "user" "guess"
              None None locked_db
              (mk_user_row 2 "user" "pepperpepperpepp$user123"
                 "pepperpepperpepp" "user" (Some "Оператор Автопарка")
                 (Some "user@autopark.local") true 8 None 5
                 (Some 1800001001))
              1800001001 locked_db_ok eq_refl eq_refl eq_refl)
    as (Hnone & r' & Hacc & Hcount & _ & Hlock).
  - discriminate.
  - discriminate.
  - discriminate.
  - split; [exact Hnone|]. exists r'. repeat split; assumption.
Defined.

(** ** Successful logins *)

Lemma authenticate_success_inv
    (hash : string -> string -> string) (e : env) (name password : string)
    (ip ua : option string) (s : db) (info : user_info) :
  store_ok s ->
  fst (authenticate hash e name password ip ua s) = Some info ->
  exists r,
    account name s = Some r /\ is_active r = true /\
    locked_at (now_auth e) (locked_until r) = false /\
    hash password (password_salt r) = password_hash r /\
    authenticate hash e name password ip ua s
    = (Some (mk_user_info (row_id r) (username r) (role r) (full_name r)
               (String.eqb (role r) "admin")
               (_get_user_permissions (role r))),
       logged (mk_log_row (Some (row_id r)) name "login" ip ua true)
         (touched (row_id r) (after_success e) s)).
Proof.
  intros Hok Hres.
  destruct (fst (select_active_user name s)) as [r|] eqn:Hsel.
  - destruct (locked_at (now_auth e) (locked_until r)) eqn:Hlock.
    + rewrite (authenticate_blocked hash e name password ip ua s r Hsel Hlock)
        in Hres. discriminate.
    + destruct (String.eqb (hash password (password_salt r))
                  (password_hash r)) eqn:Hh.
      * apply String.eqb_eq in Hh. exists r.
        destruct (account_of_select_active name s r Hok Hsel) as [Hacc Hact].
        repeat split; trivial. now apply authenticate_match.
      * apply String.eqb_neq in Hh.
        rewrite (authenticate_mismatch hash e name password ip ua s r
                   (ok_ids s Hok) Hsel Hlock Hh) in Hres. discriminate.
  - rewrite (authenticate_unknown hash e name password ip ua s Hsel) in Hres.
    discriminate.
Qed.

(** C4: a login that succeeds leaves the account with a failed-attempt
    counter of 0, no [locked_until] and [last_login] at the current
    timestamp, whatever the counter and the lock were before; and on an
    active account whose [locked_until] is set but no longer in the
    future, a login with the right password succeeds and leaves the
    counter at 0 and the lock cleared. *)
Theorem successful_login_resets_lockout
    (hash : string -> string -> string) (e : env) (name password : string)
    (ip ua : option string) (s : db) :
  store_ok s ->
  (forall info,
     fst (authenticate hash e name password ip ua s) = Some info ->
     exists r',
       account name (snd (authenticate hash e name password ip ua s))
       = Some r' /\
       login_attempts r' = 0 /\
       locked_until r' = None /\
       last_login r' = Some (current_timestamp e))
  /\
  (forall r t,
     account name s = Some r ->
     is_active r = true ->
     locked_until r = Some t ->
     t <= now_auth e ->
     hash password (password_salt r) = password_hash r ->
     exists info r',
       fst (authenticate hash e name password ip ua s) = Some info /\
       account name (snd (authenticate hash e name password ip ua s))
       = Some r' /\
       login_attempts r' = 0 /\
       locked_until r' = None).
Proof.
  intros Hok. split.
  - intros info Hres.
    destruct (authenticate_success_inv hash e name password ip ua s info Hok
                Hres) as (r & Hacc & _ & _ & _ & Hrun).
    rewrite Hrun. simpl snd. exists (after_success e r).
    rewrite account_logged. split; [now apply account_touched|].
    repeat split.
  - intros r t Hacc Hact Hlu Hpast Hright.
    assert (Hlock : locked_at (now_auth e) (locked_until r) = false).
    { apply locked_at_false. intros t' Ht'. congruence. }
    rewrite (authenticate_match hash e name password ip ua s r
               (select_active_of_account name s r Hok Hacc Hact) Hlock Hright).
    simpl fst. simpl snd. eexists. exists (after_success e r).
    rewrite account_logged. split; [reflexivity|].
    split; [now apply account_touched|]. split; reflexivity.
Qed.

Lemma successful_login_resets_lockout_witness :
  exists info r',
    fst (authenticate toy_hash env_past "user" "user123" None None locked_db)
    = Some info /\
    account "user"
      (snd (authenticate toy_hash env_past "user" "user123" None None
              locked_db))
    = Some r' /\
    login_attempts r' = 0 /\ locked_until r' = None /\
    last_login r' = Some 10.
Proof.
  destruct (successful_login_resets_lockout toy_hash env_past "user" "user123"
              None None locked_db locked_db_ok) as [Hany Hexpired].
  destruct (Hexpired
              (mk_user_row 2 "user" "pepperpepperpepp$user123"
                 "pepperpepperpepp" "user" (Some "Оператор Автопарка")
                 (Some "user@autopark.local") true 8 None 5
                 (Some 1800001001))
              1800001001 eq_refl eq_refl eq_refl)
    as (info & r' & Hres & Hacc & Hcount & Hlock).
  - discriminate.
  - reflexivity.
  - destruct (Hany info Hres) as (r'' & Hacc' & _ & _ & Hlast).
    exists info, r'. repeat split; try assumption.
    rewrite Hacc in Hacc'. injection Hacc' as <-. exact Hlast.
Defined.

(** ** Failures that look alike *)

Lemma authenticate_wrong_password_none
    (hash : string -> string -> string) (e : env) (name password : string)
    (ip ua : option string) (s : db) (r : user_row) :
  fst (select_active_user name s) = Some r ->
  hash password (password_salt r) <> password_hash r ->
  fst (authenticate hash e name password ip ua s) = None.
Proof.
  intros Hsel Hwrong. unfold authenticate, bind.
  rewrite (select_active_state name s), Hsel.
  destruct (locked_at (now_auth e) (locked_until r)); [reflexivity|].
  apply String.eqb_neq in Hwrong. rewrite Hwrong.
  destruct (_increment_login_attempts e (row_id r) s) as [u s1].
  reflexivity.
Qed.

Lemma account_after_delete (name : string) (s : db) :
  username_taken name (users (snd (delete_user name s))) = false.
Proof.
  unfold delete_user, delete_where_username, bind, get_users, put_users, ret.
  simpl. unfold username_taken.
  induction (users s) as [|x l IH]; simpl; [reflexivity|].
  destruct (String.eqb (username x) name) eqn:E; simpl; [exact IH|].
  now rewrite E.
Qed.

Lemma authenticate_never_existing
    (hash : string -> string -> string) (e : env) (name password : string)
    (ip ua : option string) (s : db) :
  username_taken name (users s) = false ->
  authenticate hash e name password ip ua s
  = (None, logged (mk_log_row None name "login" ip ua false) s).
Proof.
  intros Hfree. apply authenticate_unknown.
  unfold select_active_user, bind, get_users, ret. simpl.
  now apply not_taken_no_row.
Qed.

(** C5: [authenticate] returns the same value, [None], for a username
    with no active account (never created, deleted or deactivated) and
    for an active account given a wrong password; and once
    [delete_user] has succeeded on a username, a login on it does what
    it does on a username that never had a row: it returns [None] and
    appends the failure entry with no user id, leaving [users] alone. *)
Theorem failures_are_indistinguishable
    (hash : string -> string -> string) (e : env) (name password : string)
    (ip ua : option string) (s : db) :
  ((forall r, In r (users s) -> username r = name -> is_active r = false) ->
   fst (authenticate hash e name password ip ua s) = None)
  /\
  (forall r,
     store_ok s -> account name s = Some r -> is_active r = true ->
     hash password (password_salt r) <> password_hash r ->
     fst (authenticate hash e name password ip ua s) = None)
  /\
  (fst (delete_user name s) = true ->
   authenticate hash e name password ip ua (snd (delete_user name s))
   = (None,
      logged (mk_log_row None name "login" ip ua false)
        (snd (delete_user name s))))
  /\
  (username_taken name (users s) = false ->
   authenticate hash e name password ip ua s
   = (None, logged (mk_log_row None name "login" ip ua false) s)).
Proof.
  repeat split.
  - intros Hnone. rewrite authenticate_unknown; [reflexivity|].
    unfold select_active_user, bind, get_users, ret. simpl.
    apply find_none_all. intros r Hr.
    destruct (String.eqb (username r) name) eqn:E; [|reflexivity].
    apply String.eqb_eq in E. now rewrite (Hnone r Hr E).
  - intros r Hok Hacc Hact Hwrong.
    apply (authenticate_wrong_password_none hash e name password ip ua s r);
      trivial.
    now apply select_active_of_account.
  - intros _. apply authenticate_never_existing, account_after_delete.
  - apply authenticate_never_existing.
Qed.

Lemma failures_are_indistinguishable_witness :
  fst (authenticate toy_hash env0 "user" "user123" None None retired_db)
  = None /\
  fst (authenticate toy_hash env0 "user" "guess" None None seeded_db) = None /\
  fst (delete_user "user" seeded_db) = true /\
  authenticate toy_hash env0 "user" "user123" None None
    (snd (delete_user "user" seeded_db))
  = (None,
     logged (mk_log_row None "user" "login" None None false)
       (snd (delete_user "user" seeded_db))) /\
  authenticate toy_hash env0 "nobody" "user123" None None seeded_db
  = (None, logged (mk_log_row None "nobody" "login" None None false)
             seeded_db).
Proof.
  split; [|split; [|split; [reflexivity|split]]].
  - apply (failures_are_indistinguishable toy_hash env0 "user" "user123"
             None None retired_db).
    intros r [<-|[<-|[]]]; [discriminate | reflexivity].
  - apply (proj1 (proj2 (failures_are_indistinguishable toy_hash env0 "user"
                           "guess" None None seeded_db))
             (mk_user_row 2 "user" "pepperpepperpepp$user123"
                "pepperpepperpepp" "user" (Some "Оператор Автопарка")
                (Some "user@autopark.local") true 8 None 0 None)
             seeded_db_ok eq_refl eq_refl).
    discriminate.
  - apply (failures_are_indistinguishable toy_hash env0 "user" "user123"
             None None seeded_db). reflexivity.
  - apply (failures_are_indistinguishable toy_hash env0 "nobody" "user123"
             None None seeded_db). reflexivity.
Defined.

(** ** Changing a password *)

Lemma touched_nothing (uid : Z) (s : db) : touched uid (fun r => r) s = s.
Proof.
  destruct s as [l logs k]. unfold touched. simpl. f_equal.
  rewrite <- (map_id l) at 2. apply map_ext. intros r.
  now destruct (row_id r =? uid).
Qed.

(** A login that fails on a wrong password, whatever the state of the
    account: an entry goes to [auth_logs] and the rows of the account
    keep their credentials. *)
Lemma wrong_password_shape
    (hash : string -> string -> string) (e : env) (name password : string)
    (ip ua : option string) (s : db) (r : user_row) :
  store_ok s -> account name s = Some r ->
  hash password (password_salt r) <> password_hash r ->
  exists entry f,
    authenticate hash e name password ip ua s
    = (None, logged entry (touched (row_id r) f s)) /\
    (forall x, credentials (f x) = credentials x).
Proof.
  intros Hok Hacc Hwrong.
  pose proof (select_active_account name s r Hok Hacc) as Hsel.
  destruct (is_active r) eqn:Hact.
  - destruct (locked_at (now_auth e) (locked_until r)) eqn:Hlock.
    + exists (mk_log_row (Some (row_id r)) name "login_blocked" ip ua false),
        (fun x => x).
      rewrite touched_nothing. split; [|reflexivity].
      now apply authenticate_blocked.
    + exists (mk_log_row (Some (row_id r)) name "login" ip ua false),
        (after_failure e).
      split; [|apply after_failure_credentials].
      apply authenticate_mismatch; trivial. apply Hok.
  - exists (mk_log_row None name "login" ip ua false), (fun x => x).
    rewrite touched_nothing. split; [|reflexivity].
    now apply authenticate_unknown.
Qed.

(** C6: with a wrong old password [change_password] returns [False]
    and the account keeps its [password_hash] and [password_salt]; a
    later login with the password that matches them succeeds, as long
    as the account is active and not inside a lock window at that
    time. *)
Theorem failed_change_keeps_password
    (hash : string -> string -> string) (e e' : env)
    (name old_password new_password : string) (ip ua : option string)
    (s : db) (r : user_row) :
  store_ok s ->
  account name s = Some r ->
  hash old_password (password_salt r) <> password_hash r ->
  fst (change_password hash e name old_password new_password s) = false /\
  exists r',
    account name (snd (change_password hash e name old_password new_password s))
    = Some r' /\
    password_hash r' = password_hash r /\
    password_salt r' = password_salt r /\
    (forall password,
       hash password (password_salt r) = password_hash r ->
       is_active r = true ->
       (forall t, locked_until r' = Some t -> t <= now_auth e') ->
       exists info,
         fst (authenticate hash e' name password ip ua
                (snd (change_password hash e name old_password new_password s)))
         = Some info /\
         ui_username info = name).
Proof.
  intros Hok Hacc Hwrong.
  pose proof (change_password_store_ok hash e name old_password new_password
                s Hok) as Hok'.
  revert Hok'. unfold change_password, bind.
  destruct (wrong_password_shape hash e name old_password None None s r Hok
              Hacc Hwrong) as (entry & f & Hrun & Hcred).
  rewrite Hrun. simpl fst. simpl snd. intros Hok'.
  split; [reflexivity|].
  assert (Hname : forall x, username (f x) = username x).
  { intros x. specialize (Hcred x). unfold credentials in Hcred. congruence. }
  assert (Hacc' : account name (logged entry (touched (row_id r) f s))
                  = Some (f r)).
  { rewrite account_logged. now apply account_touched. }
  pose proof (Hcred r) as Hr. unfold credentials in Hr.
  injection Hr as Hid Hnm Hh Hs Hrl Hact'.
  exists (f r). repeat split; trivial.
  intros password Hright Hact Hfree.
  rewrite (authenticate_match hash e' name password ip ua _ (f r)).
  - eexists. split; [reflexivity|]. simpl. rewrite Hnm.
    now apply account_in in Hacc.
  - apply select_active_of_account; trivial. congruence.
  - now apply locked_at_false.
  - congruence.
Qed.

Lemma failed_change_keeps_password_witness :
  fst (change_password toy_hash env0 "user" "guess" "NewSecret" seeded_db)
  = false /\
  exists info,
    fst (authenticate toy_hash env1 "user" "user123" None None
           (snd (change_password toy_hash env0 "user" "guess" "NewSecret"
                   seeded_db)))
    = Some info /\
    ui_username info = "user".
Proof.
  destruct (failed_change_keeps_password toy_hash env0 env1 "user" "guess"
              "NewSecret" None None seeded_db
              (mk_user_row 2 "user" "pepperpepperpepp$user123"
                 "pepperpepperpepp" "user" (Some "Оператор Автопарка")
                 (Some "user@autopark.local") true 8 None 0 None)
              seeded_db_ok eq_refl)
    as (Hfalse & r' & Hacc & Hh & Hs & Hlater).
  - discriminate.
  - split; [exact Hfalse|].
    apply (Hlater "user123"); [reflexivity | reflexivity |].
    vm_compute in Hacc. injection Hacc as <-. discriminate.
Defined.

(** ** The audit trail *)

Lemma increment_keeps_logs (e : env) (uid : Z) (s : db) :
  auth_logs (snd (_increment_login_attempts e uid s)) = auth_logs s.
Proof.
  unfold _increment_login_attempts, bind, update_where_id, select_by_id,
    get_users, put_users, ret. simpl.
  destruct (find _ _) as [r|]; [|reflexivity].
  now destruct (5 <=? login_attempts r).
Qed.

(** Each login writes one entry, tagged [login] or [login_blocked],
    whose [success] tells whether a view was returned. *)
Lemma authenticate_appends_one
    (hash : string -> string -> string) (e : env) (name password : string)
    (ip ua : option string) (s : db) :
  exists entry,
    auth_logs (snd (authenticate hash e name password ip ua s))
    = (auth_logs s ++ [entry])%list /\
    (action entry = "login" \/ action entry = "login_blocked") /\
    success entry
    = match fst (authenticate hash e name password ip ua s) with
      | Some _ => true
      | None => false
      end /\
    (forall info,
       fst (authenticate hash e name password ip ua s) = Some info ->
       log_user_id entry = Some (ui_id info)).
Proof.
  destruct (fst (select_active_user name s)) as [r|] eqn:Hsel.
  - destruct (locked_at (now_auth e) (locked_until r)) eqn:Hlock.
    + rewrite (authenticate_blocked hash e name password ip ua s r Hsel Hlock).
      eexists. split; [reflexivity|]. simpl. repeat split; auto.
      discriminate.
    + destruct (String.eqb (hash password (password_salt r))
                  (password_hash r)) eqn:Hh.
      * apply String.eqb_eq in Hh.
        rewrite (authenticate_match hash e name password ip ua s r Hsel Hlock
                   Hh).
        eexists. split; [reflexivity|]. simpl. repeat split; auto.
        now intros info [= <-].
      * unfold authenticate, bind.
        rewrite (select_active_state name s), Hsel, Hlock, Hh.
        pose proof (increment_keeps_logs e (row_id r) s) as Hlogs.
        destruct (_increment_login_attempts e (row_id r) s) as [u s1].
        simpl in *. rewrite Hlogs.
        eexists. split; [reflexivity|]. simpl. repeat split; auto.
        discriminate.
  - rewrite (authenticate_unknown hash e name password ip ua s Hsel).
    eexists. split; [reflexivity|]. simpl. repeat split; auto.
    discriminate.
Qed.

(** C8, as the code has it: [change_password] first logs in with the
    old password, which writes one entry tagged [login] or
    [login_blocked] whose [success] is the outcome of the call; when the
    password is changed one entry tagged [change_password] with
    [success] true follows it, and when the login fails nothing
    follows it: a failed call leaves no entry tagged
    [change_password]. *)
Theorem change_password_audit_trail
    (hash : string -> string -> string) (e : env)
    (name old_password new_password : string) (s : db) :
  exists attempt,
    (action attempt = "login" \/ action attempt = "login_blocked") /\
    success attempt
    = fst (change_password hash e name old_password new_password s) /\
    auth_logs (snd (change_password hash e name old_password new_password s))
    = (auth_logs s ++
       attempt ::
       (if fst (change_password hash e name old_password new_password s)
        then [mk_log_row (log_user_id attempt) name "change_password"
                None None true]
        else []))%list.
Proof.
  destruct (authenticate_appends_one hash e name old_password None None s)
    as (entry & Hlogs & Htag & Hsucc & Hid).
  exists entry. unfold change_password, bind.
  destruct (authenticate hash e name old_password None None s) as [[ui|] s1].
  - simpl in *. rewrite Hlogs, <- app_assoc. simpl.
    rewrite (Hid ui eq_refl). auto.
  - simpl in *. auto.
Qed.

(** C8 fails as stated: a call with a wrong old password on the seeded
    database returns [False] and no entry tagged [change_password]
    is in [auth_logs] afterwards. *)
Lemma change_password_audit_counterexample :
  fst (change_password toy_hash env0 "user" "guess" "NewSecret" seeded_db)
  = false /\
  ~ exists entry,
      In entry
        (auth_logs
           (snd (change_password toy_hash env0 "user" "guess" "NewSecret"
                   seeded_db))) /\
      action entry = "change_password".
Proof.
  split; [reflexivity|].
  intros (entry & Hin & Htag). vm_compute in Hin.
  repeat (destruct Hin as [<-|Hin]; [discriminate|]). exact Hin.
Qed.

(** C7, as the code has it: [create_user] on a username that a row
    already carries returns [False] and leaves the whole database as it
    was: no row is added to [users] and none to [auth_logs]. *)
Theorem duplicate_username_writes_nothing
    (hash : string -> string -> string) (e : env)
    (name password rl : string) (fname mail : option string) (s : db) :
  username_taken name (users s) = true ->
  create_user hash e name password rl fname mail s = (false, s).
Proof.
  intros Htaken. unfold create_user.
  destruct (valid_role rl); [|reflexivity]. cbn [negb].
  unfold bind, insert_user. now rewrite Htaken.
Qed.

Lemma duplicate_username_writes_nothing_witness :
  username_taken "admin" (users seeded_db) = true /\
  create_user toy_hash env_inside "admin" "Secret1" "admin" None None seeded_db
  = (false, seeded_db).
Proof.
  split; [reflexivity|].
  apply (duplicate_username_writes_nothing toy_hash env_inside "admin"
           "Secret1" "admin" None None seeded_db).
  reflexivity.
Defined.

(** C7 fails as stated: creating ["admin"] again on the seeded database
    returns [False] and [auth_logs] is what it was, with no entry
    tagged [create_user] whose [success] is false. *)
Lemma duplicate_username_audit_counterexample :
  username_taken "admin" (users seeded_db) = true /\
  fst (create_user toy_hash env_inside "admin" "Secret1" "admin" None None
         seeded_db) = false /\
  auth_logs (snd (create_user toy_hash env_inside "admin" "Secret1" "admin"
                    None None seeded_db))
  = auth_logs seeded_db /\
  ~ exists entry,
      In entry
        (auth_logs (snd (create_user toy_hash env_inside "admin" "Secret1"
                           "admin" None None seeded_db))) /\
      action entry = "create_user" /\ success entry = false.
Proof.
  repeat split.
  intros (entry & Hin & Htag & Hfail). vm_compute in Hin.
  repeat (destruct Hin as [<-|Hin]; [discriminate|]). exact Hin.
Qed.

(** ** Roles outside admin and user *)

Lemma valid_role_false (rl : string) :
  rl <> "admin" -> rl <> "user" -> valid_role rl = false.
Proof.
  intros Ha Hu. unfold valid_role. simpl.
  apply String.eqb_neq in Ha, Hu. now rewrite Ha, Hu.
Qed.

(** A SET clause that carries a refused role fails on every row. *)
Lemma refused_role_fails_row (k : kwargs) (v : option string) (r : user_row) :
  kw_role k = Some v ->
  (forall x, v = Some x -> valid_role x = false) ->
  update_fields k <> [] /\ assign_all (update_fields k) r = None.
Proof.
  intros Hrole Hbad. unfold update_fields. rewrite Hrole.
  destruct (kw_full_name k), (kw_email k), (kw_is_active k), v as [x|];
    simpl; (split; [discriminate|]);
    try reflexivity; now rewrite (Hbad x eq_refl).
Qed.

Lemma update_rows_all_fail (name : string) (asgs : list assignment)
    (l : list user_row) :
  (forall r, assign_all asgs r = None) ->
  update_rows name asgs l = if username_taken name l then None else Some l.
Proof.
  intros Hfail. unfold username_taken.
  induction l as [|r l IH]; simpl; [reflexivity|].
  destruct (String.eqb (username r) name); simpl.
  - now rewrite Hfail.
  - rewrite IH. now destruct (existsb _ l).
Qed.

(** C9, as the code has it: [create_user] with a role outside admin and
    user returns [False] and writes nothing; [update_user] carrying such
    a role (or [None]) leaves the whole database as it was, every field
    of every account included, and returns [False] when a row has the
    username; when no row has it, the UPDATE matches nothing and the
    call returns [True]. *)
Theorem invalid_role_changes_nothing
    (hash : string -> string -> string) (e : env)
    (name password rl : string) (fname mail : option string)
    (k : kwargs) (v : option string) (s : db) :
  (rl <> "admin" -> rl <> "user" ->
   create_user hash e name password rl fname mail s = (false, s))
  /\
  (kw_role k = Some v ->
   (forall x, v = Some x -> x <> "admin" /\ x <> "user") ->
   update_user name k s = (negb (username_taken name (users s)), s)).
Proof.
  split.
  - intros Ha Hu. unfold create_user.
    now rewrite (valid_role_false rl Ha Hu).
  - intros Hrole Hbad.
    assert (Hbad' : forall x, v = Some x -> valid_role x = false).
    { intros x Hx. destruct (Hbad x Hx). now apply valid_role_false. }
    destruct (refused_role_fails_row k v
                (mk_user_row 0 "" "" "" "" None None true 0 None 0 None)
                Hrole Hbad') as [Hne _].
    unfold update_user.
    destruct (update_fields k) as [|a asgs] eqn:Hk; [contradiction|].
    unfold bind, update_set_where_username.
    rewrite update_rows_all_fail.
    + destruct (username_taken name (users s)); [reflexivity|].
      now destruct s.
    + intros r. rewrite <- Hk. now apply (refused_role_fails_row k v r).
Qed.

Lemma invalid_role_changes_nothing_witness :
  create_user toy_hash env_inside "root" "Secret1" "superuser" None None
    seeded_db
  = (false, seeded_db) /\
  update_user "user"
    (mk_kwargs (Some (Some "Mallory")) None (Some (Some "superuser")) None [])
    seeded_db
  = (false, seeded_db).
Proof.
  split.
  - apply (invalid_role_changes_nothing toy_hash env_inside "root" "Secret1"
             "superuser" None None
             (mk_kwargs None None None None []) None seeded_db);
      discriminate.
  - apply (proj2 (invalid_role_changes_nothing toy_hash env_inside "user"
                    "Secret1" "superuser" None None
                    (mk_kwargs (Some (Some "Mallory")) None
                       (Some (Some "superuser")) None [])
                    (Some "superuser") seeded_db)).
    + reflexivity.
    + intros x [= <-]. split; discriminate.
Defined.

(** C9 fails as stated: on the seeded database, where no row is named
    ["ghost"], [update_user] with the role ["superuser"] returns
    [True]. *)
Lemma invalid_role_update_counterexample :
  valid_role "superuser" = false /\
  account "ghost" seeded_db = None /\
  fst (update_user "ghost"
         (mk_kwargs None None (Some (Some "superuser")) None []) seeded_db)
  = true.
Proof. repeat split. Qed.


(** * Further properties of the authentication module *)

(** ** What a login leaves alone *)

Lemma update_where_id_profile (uid : Z) (f : user_row -> user_row) (s : db) :
  (forall r, profile (f r) = profile r) ->
  map profile (users (snd (update_where_id uid f s))) = map profile (users s).
Proof.
  intros Hf. unfold update_where_id, bind, get_users, put_users. simpl.
  rewrite map_map. apply map_ext. intros r.
  now destruct (row_id r =? uid).
Qed.

Lemma increment_profile (e : env) (uid : Z) (s : db) :
  map profile (users (snd (_increment_login_attempts e uid s)))
  = map profile (users s).
Proof.
  unfold _increment_login_attempts, bind.
  pose proof (update_where_id_profile uid
                (fun r => with_login_attempts (login_attempts r + 1) r) s
                (fun r => eq_refl)) as H1.
  destruct (update_where_id uid _ s) as [u s1]. simpl in H1.
  unfold select_by_id, bind, get_users, ret. simpl.
  destruct (find _ (users s1)) as [r|]; [|exact H1].
  destruct (5 <=? login_attempts r); [|exact H1].
  rewrite <- H1. now apply update_where_id_profile.
Qed.

Lemma profiles_after_login
    (hash : string -> string -> string) (e : env) (name password : string)
    (ip ua : option string) (s : db) :
  map profile (users (snd (authenticate hash e name password ip ua s)))
  = map profile (users s).
Proof.
  unfold authenticate, bind. rewrite (select_active_state name s).
  destruct (fst (select_active_user name s)) as [r|]; [|reflexivity].
  destruct (locked_at (now_auth e) (locked_until r)); [reflexivity|].
  destruct (String.eqb (hash password (password_salt r)) (password_hash r)).
  - unfold _reset_login_attempts, _update_last_login.
    pose proof (update_where_id_profile (row_id r)
                  (fun x => with_locked_until None (with_login_attempts 0 x))
                  s (fun x => eq_refl)) as H1.
    destruct (update_where_id (row_id r) _ s) as [u s1]. simpl in H1.
    pose proof (update_where_id_profile (row_id r)
                  (with_last_login (Some (current_timestamp e)))
                  s1 (fun x => eq_refl)) as H2.
    destruct (update_where_id (row_id r) _ s1) as [u2 s2]. simpl in *.
    congruence.
  - pose proof (increment_profile e (row_id r) s) as H1.
    destruct (_increment_login_attempts e (row_id r) s) as [u s1].
    exact H1.
Qed.

(** No login, whatever its outcome, adds or removes an account or
    writes an id, a username, a hash, a salt, a role, a name, an email,
    the active flag or the creation time of any row: afterwards the
    table has the same rows in the same order with these columns as
    they were. *)
Theorem login_keeps_profiles
    (hash : string -> string -> string) (e : env) (name password : string)
    (ip ua : option string) (s : db) :
  map (fun r => (row_id r, username r, password_hash r, password_salt r,
                 role r, full_name r, email r, is_active r, created_at r))
    (users (snd (authenticate hash e name password ip ua s)))
  = map (fun r => (row_id r, username r, password_hash r, password_salt r,
                   role r, full_name r, email r, is_active r, created_at r))
      (users s).
Proof. exact (profiles_after_login hash e name password ip ua s). Qed.

(** ** The audit trail only grows *)

Lemma create_user_logs hash e name password rl fname mail s :
  exists added,
    auth_logs (snd (create_user hash e name password rl fname mail s))
    = (auth_logs s ++ added)%list /\ (List.length added <= 1)%nat.
Proof.
  unfold create_user. destruct (valid_role rl) eqn:Hrl; cbn [negb].
  - unfold bind, insert_user. rewrite Hrl.
    destruct (username_taken name (users s)); simpl.
    + exists []. rewrite app_nil_r. split; [reflexivity | simpl; lia].
    + eexists [_]. split; [reflexivity | simpl; lia].
  - exists []. simpl. rewrite app_nil_r. split; [reflexivity | simpl; lia].
Qed.

Lemma update_user_logs name k s :
  auth_logs (snd (update_user name k s)) = auth_logs s.
Proof.
  unfold update_user. destruct (update_fields k); [reflexivity|].
  unfold bind, update_set_where_username.
  now destruct (update_rows name _ (users s)).
Qed.

(** Every call of a public method leaves the rows of [auth_logs] that
    were there, in their order, and adds at most two after them:
    no method rewrites or removes an audit entry, [delete_user]
    included. *)
Theorem audit_log_append_only
    (hash : string -> string -> string) (s s' : db) :
  step hash s s' ->
  exists added,
    auth_logs s' = (auth_logs s ++ added)%list /\
    (List.length added <= 2)%nat.
Proof.
  intros Hstep. destruct Hstep.
  - destruct (create_user_logs hash e name password rl fname mail s)
      as (added & Heq & Hlen).
    exists added. split; [exact Heq | lia].
  - destruct (authenticate_appends_one hash e name password ip ua s)
      as (entry & Heq & _).
    exists [entry]. split; [exact Heq | simpl; lia].
  - destruct (authenticate_appends_one hash e name old_password None None s)
      as (entry & Heq & _).
    unfold change_password, bind.
    destruct (authenticate hash e name old_password None None s)
      as [[ui|] s1]; simpl in *.
    + eexists [entry; _]. rewrite Heq, <- app_assoc.
      split; [reflexivity | simpl; lia].
    + exists [entry]. split; [exact Heq | simpl; lia].
  - exists []. rewrite update_user_logs, app_nil_r. split; [reflexivity|].
    simpl; lia.
  - exists []. rewrite app_nil_r. split; [reflexivity | simpl; lia].
Qed.

Lemma audit_log_append_only_witness :
  exists added,
    auth_logs (snd (delete_user "user" locked_db))
    = (auth_logs locked_db ++ added)%list /\
    (List.length added <= 2)%nat.
Proof.
  exact (audit_log_append_only toy_hash locked_db
           (snd (delete_user "user" locked_db))
           (step_delete_user toy_hash "user" locked_db)).
Defined.

(** ** What holds in every database the methods produce *)

(** In a database produced from the empty schema by calls of the
    public methods, no two rows share a username or an id, no id is
    above the AUTOINCREMENT counter and every role is admin or user. *)
Theorem reachable_schema_invariants
    (hash : string -> string -> string) (s : db) :
  reachable hash s ->
  NoDup (map username (users s)) /\
  NoDup (map row_id (users s)) /\
  (forall r, In r (users s) ->
     row_id r <= users_seq s /\ (role r = "admin" \/ role r = "user")).
Proof.
  intros Hreach. apply reachable_store_ok in Hreach.
  destruct Hreach as [Hn Hi Hs Hr]. repeat split; trivial.
  - rewrite Forall_forall in Hs. now apply Hs.
  - rewrite Forall_forall in Hr. destruct (Hr r H) as (Hrole & _).
    unfold valid_role in Hrole. simpl in Hrole.
    apply orb_true_iff in Hrole. destruct Hrole as [Ha|Hu].
    + left. now apply String.eqb_eq.
    + rewrite orb_false_r in Hu. right. now apply String.eqb_eq.
Qed.

Lemma reachable_schema_invariants_witness :
  NoDup (map username (users locked_db)) /\
  NoDup (map row_id (users locked_db)) /\
  (forall r, In r (users locked_db) ->
     row_id r <= users_seq locked_db /\
     (role r = "admin" \/ role r = "user")).
Proof.
  exact (reachable_schema_invariants toy_hash locked_db
           (failed_logins_reachable 5 seeded_db seeded_db_reachable)).
Defined.

Lemma Forall_touched (Q : user_row -> Prop) (uid : Z)
    (f : user_row -> user_row) (s : db) :
  (forall r, Q r -> Q (f r)) ->
  Forall Q (users s) -> Forall Q (users (touched uid f s)).
Proof.
  intros Hf Hall. unfold touched. simpl. apply Forall_map.
  eapply Forall_impl; [|exact Hall]. intros r Hq.
  destruct (row_id r =? uid); auto.
Qed.

Lemma update_rows_lock_state (name : string) (asgs : list assignment)
    (l l' : list user_row) :
  update_rows name asgs l = Some l' ->
  map lock_state l' = map lock_state l.
Proof.
  revert l'. induction l as [|r l IH]; simpl; intros l'.
  - now intros [= <-].
  - destruct (String.eqb (username r) name).
    + destruct (assign_all asgs r) as [r'|] eqn:Hr; [|discriminate].
      destruct (update_rows name asgs l) as [rest|]; [|discriminate].
      intros [= <-]. simpl. rewrite (IH rest eq_refl).
      apply assign_all_keeps in Hr.
      destruct Hr as [(_ & _ & _ & _ & Hla & Hlu) _].
      unfold lock_state. now rewrite Hla, Hlu.
    + destruct (update_rows name asgs l) as [rest|]; [|discriminate].
      intros [= <-]. simpl. now rewrite (IH rest eq_refl).
Qed.

Lemma Forall_lock_state (Q : Z * option Z -> Prop) (l l' : list user_row) :
  map lock_state l' = map lock_state l ->
  Forall (fun r => Q (lock_state r)) l ->
  Forall (fun r => Q (lock_state r)) l'.
Proof.
  intros Heq Hall.
  apply (Forall_map lock_state Q). rewrite Heq.
  now apply (Forall_map lock_state Q).
Qed.

(** From five failed attempts on, the row carries a lock. *)
Lemma step_keeps_lock_set
    (hash : string -> string -> string) (s s' : db) :
  store_ok s -> step hash s s' ->
  Forall (fun r => 5 <= login_attempts r -> locked_until r <> None)
    (users s) ->
  Forall (fun r => 5 <= login_attempts r -> locked_until r <> None)
    (users s').
Proof.
  intros Hok Hstep Hall.
  assert (Hauth : forall e name password ip ua,
            Forall (fun r => 5 <= login_attempts r -> locked_until r <> None)
              (users (snd (authenticate hash e name password ip ua s)))).
  { intros e name password ip ua.
    destruct (fst (select_active_user name s)) as [r|] eqn:Hsel.
    - destruct (locked_at (now_auth e) (locked_until r)) eqn:Hlock.
      + now rewrite (authenticate_blocked hash e name password ip ua s r
                       Hsel Hlock).
      + destruct (String.eqb (hash password (password_salt r))
                    (password_hash r)) eqn:Hh.
        * apply String.eqb_eq in Hh.
          rewrite (authenticate_match hash e name password ip ua s r Hsel
                     Hlock Hh).
          simpl. apply (Forall_touched _ (row_id r) (after_success e) s);
            trivial.
          intros x _. unfold after_success. simpl. lia.
        * apply String.eqb_neq in Hh.
          rewrite (authenticate_mismatch hash e name password ip ua s r
                     (ok_ids s Hok) Hsel Hlock Hh).
          simpl. apply (Forall_touched _ (row_id r) (after_failure e) s);
            trivial.
          intros x _. unfold after_failure. simpl.
          destruct (5 <=? login_attempts x + 1) eqn:H5; simpl.
          -- discriminate.
          -- apply Z.leb_gt in H5. lia.
    - now rewrite (authenticate_unknown hash e name password ip ua s Hsel). }
  destruct Hstep.
  - unfold create_user. destruct (valid_role rl) eqn:Hrl; cbn [negb];
      [|exact Hall].
    unfold bind, insert_user. rewrite Hrl.
    destruct (username_taken name (users s)); simpl; [exact Hall|].
    apply Forall_app. split; [exact Hall|].
    constructor; [simpl; lia | constructor].
  - apply Hauth.
  - specialize (Hauth e name old_password None None).
    unfold change_password, bind.
    destruct (authenticate hash e name old_password None None s)
      as [[ui|] s1]; simpl in *; [|exact Hauth].
    apply Forall_map. eapply Forall_impl; [|exact Hauth].
    intros r Hr. destruct (String.eqb (username r) name); [simpl; lia|].
    exact Hr.
  - unfold update_user. destruct (update_fields k) as [|a asgs];
      [exact Hall|].
    unfold bind, update_set_where_username.
    destruct (update_rows name _ (users s)) as [rows|] eqn:Hl; [|exact Hall].
    simpl. apply update_rows_lock_state in Hl.
    exact (Forall_lock_state
             (fun p => 5 <= fst p -> snd p <> None) _ _ Hl Hall).
  - unfold delete_user, delete_where_username, bind, get_users, put_users,
      ret. simpl. now apply Forall_filter_keep.
Qed.

(** In a database produced from the empty schema by calls of the
    public methods, the failed-attempt counter of an account is never
    negative and the account carries a [locked_until] exactly when the
    counter is at five or more. *)
Theorem reachable_lock_iff_five_failures
    (hash : string -> string -> string) (s : db) (r : user_row) :
  reachable hash s ->
  In r (users s) ->
  0 <= login_attempts r /\
  (locked_until r <> None <-> 5 <= login_attempts r).
Proof.
  intros Hreach.
  assert (Hset : Forall (fun x => 5 <= login_attempts x ->
                                  locked_until x <> None) (users s)).
  { induction Hreach as [|s0 s1 Hr IH Hstep]; [constructor|].
    apply (step_keeps_lock_set hash s0 s1); trivial.
    now apply (reachable_store_ok hash). }
  intros Hin.
  pose proof (ok_rows s (reachable_store_ok hash s Hreach)) as Hrows.
  rewrite Forall_forall in Hset, Hrows.
  destruct (Hrows r Hin) as (_ & Hnn & Hlock).
  split; [exact Hnn|]. split; [exact Hlock | now apply Hset].
Qed.

Lemma reachable_lock_iff_five_failures_witness :
  0 <= 5 /\ (Some 1800001001 <> None <-> 5 <= 5).
Proof.
  apply (reachable_lock_iff_five_failures toy_hash locked_db
           (mk_user_row 2 "user" "pepperpepperpepp$user123"
              "pepperpepperpepp" "user" (Some "Оператор Автопарка")
              (Some "user@autopark.local") true 8 None 5
              (Some 1800001001))
           (failed_logins_reachable 5 seeded_db seeded_db_reachable)).
  right. left. reflexivity.
Defined.

(** ** Deleting and creating accounts *)

Lemma delete_count (name : string) (l : list user_row) :
  (0 <? Z.of_nat
          (List.length (filter (fun r => String.eqb (username r) name) l)))
  = username_taken name l.
Proof.
  unfold username_taken. induction l as [|x l IH]; simpl; [reflexivity|].
  destruct (String.eqb (username x) name); simpl; [|exact IH].
  apply Z.ltb_lt. lia.
Qed.

Lemma find_other_after_delete (name other : string) (l : list user_row) :
  other <> name ->
  find (fun r => String.eqb (username r) other)
    (filter (fun r => negb (String.eqb (username r) name)) l)
  = find (fun r => String.eqb (username r) other) l.
Proof.
  intros Hneq. induction l as [|x l IH]; simpl; [reflexivity|].
  destruct (String.eqb (username x) name) eqn:Hn; simpl.
  - destruct (String.eqb (username x) other) eqn:Ho; [|exact IH].
    apply String.eqb_eq in Hn, Ho. congruence.
  - now rewrite IH.
Qed.

Lemma filter_all (p : user_row -> bool) (l : list user_row) :
  existsb (fun r => negb (p r)) l = false -> filter p l = l.
Proof.
  induction l as [|x l IH]; simpl; [reflexivity|].
  destruct (p x); simpl; [|discriminate]. intros H. now rewrite IH.
Qed.

Lemma not_taken_account_none (name : string) (s : db) :
  username_taken name (users s) = false <-> account name s = None.
Proof.
  unfold username_taken, account. induction (users s) as [|x l IH]; simpl.
  - tauto.
  - destruct (String.eqb (username x) name); simpl; [|exact IH].
    split; discriminate.
Qed.

(** [delete_user] returns [True] exactly when a row had the username;
    afterwards no row has it, the accounts of the other usernames, the
    audit log and the id counter are as before, and a call on a
    username without a row leaves the database as it was. *)
Theorem delete_user_removes_that_account_only (name : string) (s : db) :
  fst (delete_user name s) = username_taken name (users s) /\
  account name (snd (delete_user name s)) = None /\
  (forall other, other <> name ->
     account other (snd (delete_user name s)) = account other s) /\
  auth_logs (snd (delete_user name s)) = auth_logs s /\
  users_seq (snd (delete_user name s)) = users_seq s /\
  (username_taken name (users s) = false -> snd (delete_user name s) = s).
Proof.
  split; [|split; [|split; [|split; [|split]]]].
  - unfold delete_user, delete_where_username, bind, get_users, put_users,
      ret. simpl. apply delete_count.
  - apply not_taken_account_none, account_after_delete.
  - intros other Hneq. unfold account, delete_user, delete_where_username,
      bind, get_users, put_users, ret. simpl.
    now apply find_other_after_delete.
  - reflexivity.
  - reflexivity.
  - intros Hfree. unfold delete_user, delete_where_username, bind, get_users,
      put_users, ret. simpl. rewrite filter_all.
    + now destruct s.
    + unfold username_taken in Hfree. rewrite <- Hfree. clear Hfree.
      induction (users s) as [|x l IH]; simpl; [reflexivity|].
      rewrite IH. now destruct (String.eqb (username x) name).
Qed.

Lemma delete_user_removes_that_account_only_witness :
  fst (delete_user "user" locked_db) = true /\
  account "user" (snd (delete_user "user" locked_db)) = None /\
  account "admin" (snd (delete_user "user" locked_db))
  = account "admin" locked_db /\
  snd (delete_user "nobody" locked_db) = locked_db.
Proof.
  destruct (delete_user_removes_that_account_only "user" locked_db)
    as (Hret & Hgone & Hothers & _).
  destruct (delete_user_removes_that_account_only "nobody" locked_db)
    as (_ & _ & _ & _ & _ & Hsame).
  split; [exact Hret|]. split; [exact Hgone|].
  split; [apply Hothers; discriminate | apply Hsame; reflexivity].
Defined.

Lemma create_user_run
    (hash : string -> string -> string) (e : env)
    (name password rl : string) (fname mail : option string) (s : db) :
  username_taken name (users s) = false ->
  valid_role rl = true ->
  create_user hash e name password rl fname mail s
  = (true,
     logged (mk_log_row (Some (users_seq s + 1)) name "create_user"
               None None true)
       (mk_db (users s ++
               [mk_user_row (users_seq s + 1) name
                  (hash password (new_salt e)) (new_salt e) rl fname mail
                  true (current_timestamp e) None 0 None])
          (auth_logs s) (users_seq s + 1))).
Proof.
  intros Hfree Hvalid. unfold create_user. rewrite Hvalid. cbn [negb].
  unfold bind, insert_user. rewrite Hfree, Hvalid. reflexivity.
Qed.

Lemma account_appended (name : string) (s : db) (logs : list log_row)
    (k : Z) (r : user_row) :
  username_taken name (users s) = false -> username r = name ->
  account name (mk_db (users s ++ [r]) logs k) = Some r.
Proof.
  intros Hfree Hname. unfold account. simpl. rewrite find_app_last.
  - rewrite Hname. now rewrite String.eqb_refl.
  - now apply not_taken_account_none.
Qed.

(** An account deleted and created again under the same username is a
    new account: its id is above the id the deleted account had (ids
    are never handed out twice), its counter is 0, it has no lock and
    no last login, whatever the deleted account had. *)
Theorem recreated_account_is_fresh
    (hash : string -> string -> string) (e : env)
    (name password rl : string) (fname mail : option string)
    (s : db) (r : user_row) :
  store_ok s ->
  account name s = Some r ->
  rl = "admin" \/ rl = "user" ->
  fst (create_user hash e name password rl fname mail
         (snd (delete_user name s))) = true /\
  exists r',
    account name
      (snd (create_user hash e name password rl fname mail
              (snd (delete_user name s)))) = Some r' /\
    row_id r < row_id r' /\
    login_attempts r' = 0 /\ locked_until r' = None /\
    last_login r' = None /\ is_active r' = true /\ role r' = rl /\
    password_hash r' = hash password (new_salt e).
Proof.
  intros Hok Hacc Hrole.
  assert (Hvalid : valid_role rl = true) by (destruct Hrole; now subst).
  pose proof (account_after_delete name s) as Hfree.
  assert (Hseq1 : users_seq (snd (delete_user name s)) = users_seq s)
    by reflexivity.
  revert Hfree Hseq1.
  generalize (snd (delete_user name s)). intros s1 Hfree Hseq1.
  rewrite (create_user_run hash e name password rl fname mail s1 Hfree
             Hvalid).
  cbn [fst snd]. split; [reflexivity|].
  eexists. rewrite account_logged.
  split; [apply account_appended; [exact Hfree | reflexivity]|].
  cbn [row_id login_attempts locked_until last_login is_active role
       password_hash].
  repeat split; trivial.
  apply account_in in Hacc. destruct Hacc as [Hin _].
  pose proof (ok_seq s Hok) as Hseq. rewrite Forall_forall in Hseq.
  specialize (Hseq r Hin). lia.
Qed.

Lemma recreated_account_is_fresh_witness :
  exists r',
    account "user"
      (snd (create_user toy_hash env_inside "user" "Secret2" "user" None None
              (snd (delete_user "user" locked_db)))) = Some r' /\
    2 < row_id r' /\ login_attempts r' = 0 /\ locked_until r' = None.
Proof.
  destruct (recreated_account_is_fresh toy_hash env_inside "user" "Secret2"
              "user" None None locked_db
              (mk_user_row 2 "user" "pepperpepperpepp$user123"
                 "pepperpepperpepp" "user" (Some "Оператор Автопарка")
                 (Some "user@autopark.local") true 8 None 5
                 (Some 1800001001))
              locked_db_ok eq_refl (or_intror eq_refl))
    as (_ & r' & Hacc & Hid & Hcount & Hlock & _).
  exists r'. repeat split; assumption.
Defined.

(** ** Reading accounts back *)

Lemma get_user_info_account (name : string) (s : db) :
  get_user_info name s = (option_map summary (account name s), s).
Proof. reflexivity. Qed.

(** After [create_user] has succeeded, [get_user_info] on the new
    username returns the id that follows the counter, the role, name
    and email that were passed, an active account created at the
    current timestamp and no last login. *)
Theorem get_user_info_after_create
    (hash : string -> string -> string) (e : env)
    (name password rl : string) (fname mail : option string) (s : db) :
  username_taken name (users s) = false ->
  rl = "admin" \/ rl = "user" ->
  fst (get_user_info name
         (snd (create_user hash e name password rl fname mail s)))
  = Some (mk_user_summary (users_seq s + 1) name rl fname mail true
            (current_timestamp e) None).
Proof.
  intros Hfree Hrole.
  assert (Hvalid : valid_role rl = true) by (destruct Hrole; now subst).
  rewrite (create_user_run hash e name password rl fname mail s Hfree Hvalid).
  cbn [snd]. rewrite get_user_info_account. cbn [fst].
  rewrite account_logged, account_appended by trivial. reflexivity.
Qed.

Lemma get_user_info_after_create_witness :
  fst (get_user_info "dispatcher"
         (snd (create_user toy_hash env_inside "dispatcher" "Secret2" "user"
                 (Some "D. Spatcher") None seeded_db)))
  = Some (mk_user_summary 3 "dispatcher" "user" (Some "D. Spatcher") None
            true 9 None).
Proof.
  exact (get_user_info_after_create toy_hash env_inside "dispatcher"
           "Secret2" "user" (Some "D. Spatcher") None seeded_db eq_refl
           (or_intror eq_refl)).
Defined.

(** After a login that succeeded, [get_user_info] shows the current
    timestamp as last login and everything else as it was. *)
Theorem get_user_info_after_login
    (hash : string -> string -> string) (e : env) (name password : string)
    (ip ua : option string) (s : db) (info : user_info) (r : user_row) :
  store_ok s ->
  account name s = Some r ->
  fst (authenticate hash e name password ip ua s) = Some info ->
  fst (get_user_info name (snd (authenticate hash e name password ip ua s)))
  = Some (mk_user_summary (row_id r) (username r) (role r) (full_name r)
            (email r) (is_active r) (created_at r)
            (Some (current_timestamp e))) /\
  ui_id info = row_id r.
Proof.
  intros Hok Hacc Hres.
  destruct (authenticate_success_inv hash e name password ip ua s info Hok
              Hres) as (r0 & Hacc0 & _ & _ & _ & Hrun).
  assert (r0 = r) by congruence. subst r0.
  rewrite Hrun in Hres |- *. cbn [fst snd] in *.
  rewrite get_user_info_account. cbn [fst].
  rewrite account_logged, (account_touched name (after_success e) s r)
    by trivial.
  split; [reflexivity|]. now injection Hres as <-.
Qed.

Lemma get_user_info_after_login_witness :
  fst (get_user_info "user"
         (snd (authenticate toy_hash env_past "user" "user123" None None
                 locked_db)))
  = Some (mk_user_summary 2 "user" "user" (Some "Оператор Автопарка")
            (Some "user@autopark.local") true 8 (Some 10)).
Proof.
  apply (get_user_info_after_login toy_hash env_past "user" "user123" None
           None locked_db
           (mk_user_info 2 "user" "user" (Some "Оператор Автопарка") false
              (_get_user_permissions "user"))
           (mk_user_row 2 "user" "pepperpepperpepp$user123"
              "pepperpepperpepp" "user" (Some "Оператор Автопарка")
              (Some "user@autopark.local") true 8 None 5
              (Some 1800001001))
           locked_db_ok eq_refl eq_refl).
Defined.

(** ** The list of accounts *)

Lemma insert_by_username_perm (r : user_row) (l : list user_row) :
  Permutation (insert_by_username r l) (r :: l).
Proof.
  induction l as [|x l IH]; simpl; [apply Permutation_refl|].
  destruct (String.leb (username r) (username x)).
  - apply Permutation_refl.
  - eapply perm_trans; [apply perm_skip, IH | apply perm_swap].
Qed.

Lemma order_by_username_perm (l : list user_row) :
  Permutation (order_by_username l) l.
Proof.
  induction l as [|x l IH]; simpl; [constructor|].
  eapply perm_trans; [apply insert_by_username_perm|]. now apply perm_skip.
Qed.

Lemma insert_by_username_sorted (r : user_row) (l : list user_row) :
  Sorted (fun a b => String.leb (username a) (username b) = true) l ->
  Sorted (fun a b => String.leb (username a) (username b) = true)
    (insert_by_username r l).
Proof.
  induction l as [|x l IH]; simpl; intros Hs.
  - repeat constructor.
  - destruct (String.leb (username r) (username x)) eqn:Hle.
    + constructor; [exact Hs | now constructor].
    + inversion Hs as [|? ? Hs' Hhd]; subst.
      constructor; [now apply IH|].
      assert (Hxr : String.leb (username x) (username r) = true).
      { destruct (String.leb_total (username r) (username x)); congruence. }
      destruct l as [|y l]; simpl; [now constructor|].
      destruct (String.leb (username r) (username y)); constructor; trivial.
      now inversion Hhd.
Qed.

Lemma order_by_username_sorted (l : list user_row) :
  Sorted (fun a b => String.leb (username a) (username b) = true)
    (order_by_username l).
Proof.
  induction l as [|x l IH]; simpl; [constructor|].
  now apply insert_by_username_sorted.
Qed.

Lemma Sorted_map_summary (l : list user_row) :
  Sorted (fun a b => String.leb (username a) (username b) = true) l ->
  Sorted (fun a b => String.leb (us_username a) (us_username b) = true)
    (map summary l).
Proof.
  induction 1 as [|x l Hs IH Hhd]; simpl; constructor; trivial.
  destruct Hhd; simpl; now constructor.
Qed.

(** [list_users] returns one summary per row of [users], inactive
    accounts included, none twice and none missing, in ascending order
    of username, and leaves the database as it is. *)
Theorem list_users_sorted_and_complete (s : db) :
  Permutation (fst (list_users s)) (map summary (users s)) /\
  Sorted (fun a b => String.leb (us_username a) (us_username b) = true)
    (fst (list_users s)) /\
  List.length (fst (list_users s)) = List.length (users s) /\
  snd (list_users s) = s.
Proof.
  unfold list_users, bind, get_users, ret. cbn [fst snd].
  pose proof (order_by_username_perm (users s)) as Hperm.
  repeat split.
  - now apply Permutation_map.
  - apply Sorted_map_summary, order_by_username_sorted.
  - rewrite length_map. now apply Permutation_length.
Qed.

(** ** Updating a profile *)

Lemma assign_all_updated (k : kwargs) (r : user_row) :
  valid_role (role r) = true ->
  (forall v, kw_role k = Some v -> v = Some "admin" \/ v = Some "user") ->
  assign_all (update_fields k) r = Some (updated k r).
Proof.
  intros Hrole Hk. unfold update_fields, updated.
  destruct (kw_role k) as [[v|]|] eqn:Hkr.
  - assert (Hv : valid_role v = true).
    { destruct (Hk (Some v) eq_refl) as [[= ->]|[= ->]]; reflexivity. }
    destruct (kw_full_name k), (kw_email k), (kw_is_active k); simpl;
      now rewrite Hv.
  - destruct (Hk None eq_refl); discriminate.
  - destruct (kw_full_name k), (kw_email k), (kw_is_active k); simpl;
      now rewrite Hrole.
Qed.

Lemma update_rows_all_pass (name : string) (asgs : list assignment)
    (g : user_row -> user_row) (l : list user_row) :
  (forall r, In r l -> assign_all asgs r = Some (g r)) ->
  update_rows name asgs l
  = Some (map (fun r => if String.eqb (username r) name then g r else r) l).
Proof.
  induction l as [|x l IH]; simpl; intros H; [reflexivity|].
  rewrite IH by (intros r Hr; apply H; now right).
  destruct (String.eqb (username x) name); [|reflexivity].
  now rewrite (H x (or_introl eq_refl)).
Qed.

Lemma updated_username (k : kwargs) (r : user_row) :
  username (updated k r) = username r.
Proof.
  unfold updated.
  now destruct (kw_full_name k), (kw_email k), (kw_role k) as [[?|]|],
    (kw_is_active k).
Qed.

Lemma update_user_run (name : string) (k : kwargs) (s : db) :
  store_ok s ->
  update_fields k <> [] ->
  (forall v, kw_role k = Some v -> v = Some "admin" \/ v = Some "user") ->
  update_user name k s
  = (true,
     mk_db (map (fun r => if String.eqb (username r) name then updated k r
                          else r) (users s))
       (auth_logs s) (users_seq s)).
Proof.
  intros Hok Hne Hk. unfold update_user.
  destruct (update_fields k) as [|a asgs] eqn:Hf; [contradiction|].
  unfold bind, update_set_where_username.
  rewrite (update_rows_all_pass name (a :: asgs) (updated k)); [reflexivity|].
  intros r Hr. rewrite <- Hf. apply assign_all_updated; trivial.
  pose proof (ok_rows s Hok) as Hrows. rewrite Forall_forall in Hrows.
  now destruct (Hrows r Hr).
Qed.

Lemma account_map_by_name (name other : string) (g : user_row -> user_row)
    (s : db) (logs : list log_row) (n : Z) :
  (forall r, username (g r) = username r) ->
  account other
    (mk_db (map (fun r => if String.eqb (username r) name then g r else r)
              (users s)) logs n)
  = if String.eqb other name then option_map g (account other s)
    else account other s.
Proof.
  intros Hg. unfold account. simpl. rewrite find_map_commute.
  - destruct (find _ (users s)) as [x|] eqn:Hx; simpl.
    + apply find_some in Hx. destruct Hx as [_ Hx]. apply String.eqb_eq in Hx.
      subst other. now destruct (String.eqb (username x) name).
    + now destruct (String.eqb other name).
  - intros r. destruct (String.eqb (username r) name); [|reflexivity].
    now rewrite Hg.
Qed.

(** On an existing account, [update_user] with at least one
    allow-listed key and, if a role is given, the role admin or user
    returns [True]; each key that is present is written, each absent
    one keeps its value; id, username, hash, salt, creation time, last
    login, counter and lock are not touched, nor is any other
    account. *)
Theorem update_user_writes_given_fields
    (name : string) (k : kwargs) (s : db) (r : user_row) :
  store_ok s ->
  account name s = Some r ->
  update_fields k <> [] ->
  (forall v, kw_role k = Some v -> v = Some "admin" \/ v = Some "user") ->
  fst (update_user name k s) = true /\
  exists r',
    account name (snd (update_user name k s)) = Some r' /\
    full_name r'
    = match kw_full_name k with Some v => v | None => full_name r end /\
    email r' = match kw_email k with Some v => v | None => email r end /\
    role r' = match kw_role k with Some (Some v) => v | _ => role r end /\
    is_active r'
    = match kw_is_active k with Some v => v | None => is_active r end /\
    (row_id r', username r', password_hash r', password_salt r',
     created_at r', last_login r', login_attempts r', locked_until r')
    = (row_id r, username r, password_hash r, password_salt r,
       created_at r, last_login r, login_attempts r, locked_until r) /\
    (forall other, other <> name ->
       account other (snd (update_user name k s)) = account other s).
Proof.
  intros Hok Hacc Hne Hk. rewrite (update_user_run name k s Hok Hne Hk).
  cbn [fst snd]. split; [reflexivity|]. exists (updated k r).
  split.
  - rewrite account_map_by_name by apply updated_username.
    now rewrite String.eqb_refl, Hacc.
  - split; [|split; [|split; [|split; [|split]]]];
      try (unfold updated;
           now destruct (kw_full_name k), (kw_email k),
             (kw_role k) as [[?|]|], (kw_is_active k)).
    intros other Hneq.
    rewrite account_map_by_name by apply updated_username.
    apply String.eqb_neq in Hneq. now rewrite Hneq.
Qed.

Lemma update_user_writes_given_fields_witness :
  fst (update_user "user"
         (mk_kwargs (Some (Some "Shift Lead")) None (Some (Some "admin"))
            None ["password_hash"]) locked_db) = true /\
  exists r',
    account "user"
      (snd (update_user "user"
              (mk_kwargs (Some (Some "Shift Lead")) None
                 (Some (Some "admin")) None ["password_hash"]) locked_db))
    = Some r' /\
    full_name r' = Some "Shift Lead" /\ role r' = "admin" /\
    email r' = Some "user@autopark.local" /\
    password_hash r' = "pepperpepperpepp$user123" /\
    login_attempts r' = 5.
Proof.
  destruct (update_user_writes_given_fields "user"
              (mk_kwargs (Some (Some "Shift Lead")) None
                 (Some (Some "admin")) None ["password_hash"]) locked_db
              (mk_user_row 2 "user" "pepperpepperpepp$user123"
                 "pepperpepperpepp" "user" (Some "Оператор Автопарка")
                 (Some "user@autopark.local") true 8 None 5
                 (Some 1800001001))
              locked_db_ok eq_refl)
    as (Hret & r' & Hacc & Hfn & Hem & Hrl & Hact & Hkeep & _).
  - discriminate.
  - intros v [= <-]. now left.
  - split; [exact Hret|]. exists r'. injection Hkeep as _ _ Hh _ _ _ Hla _.
    repeat split; assumption.
Defined.

(** [update_user] on a username without a row never changes the
    database, and it returns [True] as soon as one allow-listed key is
    present, [False] when none is: the outcome does not tell whether an
    account was updated. *)
Theorem update_user_unknown_username
    (name : string) (k : kwargs) (s : db) :
  account name s = None ->
  snd (update_user name k s) = s /\
  fst (update_user name k s)
  = match update_fields k with [] => false | _ => true end.
Proof.
  intros Hnone. unfold update_user.
  destruct (update_fields k) as [|a asgs]; [now split|].
  unfold bind, update_set_where_username.
  assert (Hrows : update_rows name (a :: asgs) (users s) = Some (users s)).
  { unfold account in Hnone.
    induction (users s) as [|x l IH]; simpl in *; [reflexivity|].
    destruct (String.eqb (username x) name); [discriminate|].
    now rewrite IH. }
  rewrite Hrows. cbn [fst snd]. now destruct s.
Qed.

Lemma update_user_unknown_username_witness :
  snd (update_user "ghost"
         (mk_kwargs None (Some (Some "g@autopark.local")) None None [])
         seeded_db) = seeded_db /\
  fst (update_user "ghost"
         (mk_kwargs None (Some (Some "g@autopark.local")) None None [])
         seeded_db) = true.
Proof.
  exact (update_user_unknown_username "ghost"
           (mk_kwargs None (Some (Some "g@autopark.local")) None None [])
           seeded_db eq_refl).
Defined.

(** Once [update_user] has cleared [is_active] on an account, a login
    on it returns [None] for every password, the right one included;
    the call writes nothing to [users] (the counter does not move) and
    its audit entry carries no user id; [get_user_info] still returns
    the account, now inactive. *)
Theorem deactivated_account_cannot_log_in
    (hash : string -> string -> string) (e : env) (name password : string)
    (ip ua : option string) (s : db) (r : user_row) :
  store_ok s ->
  account name s = Some r ->
  fst (update_user name (mk_kwargs None None None (Some false) []) s)
  = true /\
  authenticate hash e name password ip ua
    (snd (update_user name (mk_kwargs None None None (Some false) []) s))
  = (None,
     logged (mk_log_row None name "login" ip ua false)
       (snd (update_user name (mk_kwargs None None None (Some false) [])
               s))) /\
  fst (get_user_info name
         (snd (update_user name (mk_kwargs None None None (Some false) [])
                 s)))
  = Some (summary (with_is_active false r)).
Proof.
  intros Hok Hacc.
  pose proof (update_user_store_ok name
                (mk_kwargs None None None (Some false) []) s Hok) as Hok'.
  assert (Hacc' : account name
                    (snd (update_user name
                            (mk_kwargs None None None (Some false) []) s))
                  = Some (with_is_active false r)).
  { rewrite update_user_run; trivial; [|discriminate|discriminate].
    cbn [snd]. rewrite account_map_by_name by reflexivity.
    now rewrite String.eqb_refl, Hacc. }
  split; [|split].
  - rewrite update_user_run; trivial; discriminate.
  - apply authenticate_unknown.
    now rewrite (select_active_account name _ _ Hok' Hacc').
  - rewrite get_user_info_account. cbn [fst]. now rewrite Hacc'.
Qed.

Lemma deactivated_account_cannot_log_in_witness :
  fst (authenticate toy_hash env0 "user" "user123" None None retired_db)
  = None /\
  users (snd (authenticate toy_hash env0 "user" "user123" None None
                retired_db)) = users retired_db.
Proof.
  destruct (deactivated_account_cannot_log_in toy_hash env0 "user" "user123"
              None None seeded_db
              (mk_user_row 2 "user" "pepperpepperpepp$user123"
                 "pepperpepperpepp" "user" (Some "Оператор Автопарка")
                 (Some "user@autopark.local") true 8 None 0 None)
              seeded_db_ok eq_refl) as (_ & Hrun & _).
  change (snd (update_user "user" (mk_kwargs None None None (Some false) [])
                 seeded_db)) with retired_db in Hrun.
  rewrite Hrun. split; reflexivity.
Defined.

(** ** Changing a password, continued *)

Lemma change_password_run
    (hash : string -> string -> string) (e : env)
    (name old_password new_password : string) (s : db) (info : user_info) :
  fst (authenticate hash e name old_password None None s) = Some info ->
  change_password hash e name old_password new_password s
  = (true,
     logged (mk_log_row (Some (ui_id info)) name "change_password" None None
               true)
       (mk_db
          (map (fun r =>
                  if String.eqb (username r) name
                  then with_locked_until None
                         (with_login_attempts 0
                            (with_password
                               (hash new_password (new_salt e))
                               (new_salt e) r))
                  else r)
             (users (snd (authenticate hash e name old_password None None
                            s))))
          (auth_logs (snd (authenticate hash e name old_password None None
                             s)))
          (users_seq (snd (authenticate hash e name old_password None None
                             s))))).
Proof.
  unfold change_password, bind.
  destruct (authenticate hash e name old_password None None s) as [[ui|] s1];
    simpl; [|discriminate].
  now intros [= ->].
Qed.

(** With the right old password on an active account outside a lock
    window, [change_password] returns [True] and stores the new salt
    and the digest of the new password under it, with the counter at 0
    and no lock; a later login with the new password succeeds, and one
    with the old password fails unless both passwords have the same
    digest under the new salt. *)
Theorem change_password_round_trip
    (hash : string -> string -> string) (e e' : env)
    (name old_password new_password : string) (ip ua : option string)
    (s : db) (r : user_row) :
  store_ok s ->
  account name s = Some r ->
  is_active r = true ->
  (forall t, locked_until r = Some t -> t <= now_auth e) ->
  hash old_password (password_salt r) = password_hash r ->
  fst (change_password hash e name old_password new_password s) = true /\
  exists r',
    account name
      (snd (change_password hash e name old_password new_password s))
    = Some r' /\
    password_salt r' = new_salt e /\
    password_hash r' = hash new_password (new_salt e) /\
    login_attempts r' = 0 /\ locked_until r' = None /\
    (exists info,
       fst (authenticate hash e' name new_password ip ua
              (snd (change_password hash e name old_password new_password s)))
       = Some info) /\
    (hash old_password (new_salt e) <> hash new_password (new_salt e) ->
     fst (authenticate hash e' name old_password ip ua
            (snd (change_password hash e name old_password new_password s)))
     = None).
Proof.
  intros Hok Hacc Hact Hfree Hright.
  pose proof (change_password_store_ok hash e name old_password new_password
                s Hok) as Hok'.
  assert (Hlock : locked_at (now_auth e) (locked_until r) = false)
    by now apply locked_at_false.
  pose proof (authenticate_match hash e name old_password None None s r
                (select_active_of_account name s r Hok Hacc Hact) Hlock
                Hright) as Hauth.
  assert (Hres : fst (authenticate hash e name old_password None None s)
                 = Some (mk_user_info (row_id r) (username r) (role r)
                           (full_name r) (String.eqb (role r) "admin")
                           (_get_user_permissions (role r))))
    by now rewrite Hauth.
  revert Hok'.
  rewrite (change_password_run hash e name old_password new_password s _
             Hres).
  rewrite Hauth. cbn [fst snd]. intros Hok'.
  split; [reflexivity|].
  set (g := fun x => with_locked_until None
                       (with_login_attempts 0
                          (with_password (hash new_password (new_salt e))
                             (new_salt e) x))).
  match goal with |- context [logged ?en ?d] => set (s2 := logged en d) in * end.
  assert (Hacc2 : account name s2 = Some (g (after_success e r))).
  { unfold s2. rewrite account_logged.
    rewrite (account_map_by_name name name g
               (logged (mk_log_row (Some (row_id r)) name "login" None None
                          true)
                  (touched (row_id r) (after_success e) s)))
      by reflexivity.
    rewrite String.eqb_refl, account_logged.
    now rewrite (account_touched name (after_success e) s r). }
  assert (Hsel2 : fst (select_active_user name s2)
                  = Some (g (after_success e r))).
  { apply select_active_of_account; trivial. }
  exists (g (after_success e r)).
  split; [exact Hacc2|]. repeat split.
  - rewrite (authenticate_match hash e' name new_password ip ua s2 _ Hsel2
               eq_refl eq_refl).
    eexists. reflexivity.
  - intros Hdiff.
    now apply (authenticate_wrong_password_none hash e' name old_password ip
                 ua s2 _ Hsel2).
Qed.

Lemma change_password_round_trip_witness :
  fst (change_password toy_hash env_past "user" "user123" "NewSecret"
         locked_db) = true /\
  (exists info,
     fst (authenticate toy_hash env_past "user" "NewSecret" None None
            (snd (change_password toy_hash env_past "user" "user123"
                    "NewSecret" locked_db))) = Some info) /\
  fst (authenticate toy_hash env_past "user" "user123" None None
         (snd (change_password toy_hash env_past "user" "user123"
                 "NewSecret" locked_db))) = None.
Proof.
  destruct (change_password_round_trip toy_hash env_past env_past "user"
              "user123" "NewSecret" None None locked_db
              (mk_user_row 2 "user" "pepperpepperpepp$user123"
                 "pepperpepperpepp" "user" (Some "Оператор Автопарка")
                 (Some "user@autopark.local") true 8 None 5
                 (Some 1800001001))
              locked_db_ok eq_refl eq_refl)
    as (Hret & r' & _ & _ & _ & _ & _ & Hnew & Hold).
  - intros t [= <-]. discriminate.
  - reflexivity.
  - split; [exact Hret|]. split; [exact Hnew|]. apply Hold. discriminate.
Defined.

(** Inside a lock window [change_password] returns [False] even with
    the right old password, and writes nothing to [users]: the
    password, the counter and the lock stay as they are. *)
Theorem locked_account_cannot_change_password
    (hash : string -> string -> string) (e : env)
    (name old_password new_password : string) (s : db) (r : user_row)
    (t : Z) :
  store_ok s ->
  account name s = Some r ->
  locked_until r = Some t ->
  now_auth e < t ->
  fst (change_password hash e name old_password new_password s) = false /\
  users (snd (change_password hash e name old_password new_password s))
  = users s.
Proof.
  intros Hok Hacc Hlu Hnow. unfold change_password, bind.
  pose proof (select_active_account name s r Hok Hacc) as Hsel.
  destruct (is_active r).
  - assert (Hlock : locked_at (now_auth e) (locked_until r) = true)
      by (apply locked_at_true; eauto).
    rewrite (authenticate_blocked hash e name old_password None None s r Hsel
               Hlock).
    split; reflexivity.
  - rewrite (authenticate_unknown hash e name old_password None None s Hsel).
    split; reflexivity.
Qed.

Lemma locked_account_cannot_change_password_witness :
  fst (change_password toy_hash env_inside "user" "user123" "NewSecret"
         locked_db) = false /\
  users (snd (change_password toy_hash env_inside "user" "user123"
                "NewSecret" locked_db)) = users locked_db.
Proof.
  apply (locked_account_cannot_change_password toy_hash env_inside "user"
           "user123" "NewSecret" locked_db
           (mk_user_row 2 "user" "pepperpepperpepp$user123"
              "pepperpepperpepp" "user" (Some "Оператор Автопарка")
              (Some "user@autopark.local") true 8 None 5
              (Some 1800001001))
           1800001001 locked_db_ok eq_refl eq_refl eq_refl).
Defined.

(** ** Runs of failed logins *)

Lemma login_run_app (hash : string -> string -> string)
    (t1 t2 : list (env * string)) (name : string) (s : db) :
  login_run hash (t1 ++ t2) name s
  = login_run hash t2 name (login_run hash t1 name s).
Proof.
  revert s. induction t1 as [|[e p] t1 IH]; simpl; intros s; [reflexivity|].
  apply IH.
Qed.

Lemma login_run_store_ok (hash : string -> string -> string)
    (tries : list (env * string)) (name : string) (s : db) :
  store_ok s -> store_ok (login_run hash tries name s).
Proof.
  revert s. induction tries as [|[e p] tries IH]; simpl; intros s Hok;
    [exact Hok|].
  apply IH. now apply authenticate_store_ok.
Qed.

Lemma failures_below_five
    (hash : string -> string -> string) (tries : list (env * string))
    (name : string) (s : db) (r : user_row) :
  store_ok s ->
  account name s = Some r ->
  is_active r = true ->
  locked_until r = None ->
  Forall (fun t => hash (snd t) (password_salt r) <> password_hash r) tries ->
  login_attempts r + Z.of_nat (List.length tries) < 5 ->
  exists r',
    account name (login_run hash tries name s) = Some r' /\
    login_attempts r' = login_attempts r + Z.of_nat (List.length tries) /\
    locked_until r' = None /\
    credentials r' = credentials r.
Proof.
  revert s r. induction tries as [|[e p] tries IH]; intros s r Hok Hacc Hact
    Hlu Hwrong Hlt.
  - exists r. simpl. repeat split; trivial. lia.
  - inversion Hwrong as [|? ? Hp Hrest]; subst. simpl in Hp.
    cbn [login_run].
    assert (Hfree : forall t, locked_until r = Some t -> t <= now_auth e)
      by (intros t Ht; congruence).
    pose proof (authenticate_store_ok hash e name p None None s Hok) as Hok1.
    revert Hok1.
    rewrite (failed_login hash e name p None None s r Hok Hacc Hact Hfree Hp).
    cbn [snd]. intros Hok1.
    change (List.length ((e, p) :: tries)) with (S (List.length tries)) in *.
    assert (Hstep : after_failure e r
                    = with_login_attempts (login_attempts r + 1) r).
    { unfold after_failure. simpl.
      assert (H5 : (5 <=? login_attempts r + 1) = false)
        by (apply Z.leb_gt; lia).
      now rewrite H5. }
    destruct (IH _ (after_failure e r) Hok1) as (r' & Hacc' & Hn & Hl & Hc).
    + rewrite account_logged. apply account_touched; trivial.
      apply after_failure_username.
    + now rewrite Hstep.
    + now rewrite Hstep.
    + rewrite Hstep. exact Hrest.
    + rewrite Hstep. simpl. lia.
    + exists r'. split; [exact Hacc'|]. rewrite Hstep in Hn, Hc. simpl in Hn.
      repeat split; trivial. lia.
Qed.

(** On an active account without a lock, wrong passwords that leave
    the counter below five are each counted once and never lock the
    account, whatever the times of the attempts; credentials stay as
    they are. *)
Theorem failures_are_counted_below_five
    (hash : string -> string -> string) (tries : list (env * string))
    (name : string) (s : db) (r : user_row) :
  store_ok s ->
  account name s = Some r ->
  is_active r = true ->
  locked_until r = None ->
  Forall (fun t => hash (snd t) (password_salt r) <> password_hash r) tries ->
  login_attempts r + Z.of_nat (List.length tries) < 5 ->
  exists r',
    account name (login_run hash tries name s) = Some r' /\
    login_attempts r' = login_attempts r + Z.of_nat (List.length tries) /\
    locked_until r' = None /\
    password_hash r' = password_hash r /\
    password_salt r' = password_salt r.
Proof.
  intros Hok Hacc Hact Hlu Hwrong Hlt.
  destruct (failures_below_five hash tries name s r Hok Hacc Hact Hlu Hwrong
              Hlt) as (r' & Hacc' & Hn & Hl & Hc).
  exists r'. unfold credentials in Hc. injection Hc as _ _ Hh Hs _ _.
  repeat split; assumption.
Qed.

Lemma failures_are_counted_below_five_witness :
  exists r',
    account "user"
      (login_run toy_hash
         [(env0, "guess"); (env_inside, "12345"); (env_past, "")] "user"
         seeded_db) = Some r' /\
    login_attempts r' = 3 /\ locked_until r' = None.
Proof.
  destruct (failures_are_counted_below_five toy_hash
              [(env0, "guess"); (env_inside, "12345"); (env_past, "")] "user"
              seeded_db
              (mk_user_row 2 "user" "pepperpepperpepp$user123"
                 "pepperpepperpepp" "user" (Some "Оператор Автопарка")
                 (Some "user@autopark.local") true 8 None 0 None)
              seeded_db_ok eq_refl eq_refl eq_refl)
    as (r' & Hacc & Hn & Hl & _).
  - repeat constructor; discriminate.
  - reflexivity.
  - exists r'. repeat split; assumption.
Defined.

(** The failure that brings the counter of an active, unlocked account
    to five locks it for thirty minutes from the time of that failure,
    and every login before the end of the window returns [None], with
    the right password too. *)
Theorem fifth_failure_locks_out_right_password
    (hash : string -> string -> string) (tries : list (env * string))
    (e e' : env) (wrong password name : string) (ip ua : option string)
    (s : db) (r : user_row) :
  store_ok s ->
  account name s = Some r ->
  is_active r = true ->
  locked_until r = None ->
  Forall (fun t => hash (snd t) (password_salt r) <> password_hash r) tries ->
  hash wrong (password_salt r) <> password_hash r ->
  login_attempts r + Z.of_nat (List.length tries) = 4 ->
  now_auth e' < now_lock e + 30 * 60 * 1000000 ->
  exists r',
    account name (login_run hash (tries ++ [(e, wrong)]) name s) = Some r' /\
    login_attempts r' = 5 /\
    locked_until r' = Some (now_lock e + 30 * 60 * 1000000) /\
    fst (authenticate hash e' name password ip ua
           (login_run hash (tries ++ [(e, wrong)]) name s)) = None.
Proof.
  intros Hok Hacc Hact Hlu Hwrong Hlast Hfour Hinside.
  destruct (failures_below_five hash tries name s r Hok Hacc Hact Hlu Hwrong)
    as (r1 & Hacc1 & Hn1 & Hl1 & Hc1); [lia|].
  pose proof (login_run_store_ok hash tries name s Hok) as Hok1.
  rewrite login_run_app. cbn [login_run].
  revert Hok1 Hacc1. generalize (login_run hash tries name s).
  intros s1 Hok1 Hacc1.
  unfold credentials in Hc1. injection Hc1 as _ _ Hh Hs _ Ha.
  assert (Hfree : forall t, locked_until r1 = Some t -> t <= now_auth e)
    by (intros t Ht; congruence).
  assert (Hwrong1 : hash wrong (password_salt r1) <> password_hash r1)
    by congruence.
  assert (Hact1 : is_active r1 = true) by congruence.
  pose proof (authenticate_store_ok hash e name wrong None None s1 Hok1)
    as Hok2.
  revert Hok2.
  rewrite (failed_login hash e name wrong None None s1 r1 Hok1 Hacc1 Hact1
             Hfree Hwrong1).
  cbn [snd]. intros Hok2.
  assert (Hfive : after_failure e r1
                  = with_locked_until (Some (now_lock e + lock_duration))
                      (with_login_attempts 5 r1)).
  { unfold after_failure. simpl.
    replace (login_attempts r1 + 1) with 5 by lia. reflexivity. }
  assert (Hacc2 : account name
                    (logged (mk_log_row (Some (row_id r1)) name "login" None
                               None false)
                       (touched (row_id r1) (after_failure e) s1))
                  = Some (after_failure e r1)).
  { rewrite account_logged. apply account_touched; trivial.
    apply after_failure_username. }
  exists (after_failure e r1). split; [exact Hacc2|].
  split; [now rewrite Hfive|]. split; [now rewrite Hfive|].
  rewrite (authenticate_blocked hash e' name password ip ua _
             (after_failure e r1)); [reflexivity| |].
  - apply select_active_of_account; trivial. now rewrite Hfive.
  - rewrite Hfive. simpl. now apply Z.ltb_lt.
Qed.

Lemma fifth_failure_locks_out_right_password_witness :
  exists r',
    account "user"
      (login_run toy_hash [(env_inside, "guess")] "user" strained_db)
    = Some r' /\
    login_attempts r' = 5 /\
    locked_until r' = Some (5001 + 1800000000) /\
    fst (authenticate toy_hash env_past "user" "user123" None None
           (login_run toy_hash [(env_inside, "guess")] "user" strained_db))
    = None.
Proof.
  exact (fifth_failure_locks_out_right_password toy_hash [] env_inside
           env_past "guess" "user123" "user" None None strained_db
           (mk_user_row 2 "user" "pepperpepperpepp$user123"
              "pepperpepperpepp" "user" (Some "Оператор Автопарка")
              (Some "user@autopark.local") true 8 None 4 None)
           strained_db_ok eq_refl eq_refl eq_refl (Forall_nil _)
           (fun H => ltac:(discriminate H)) eq_refl eq_refl).
Defined.

(** ** The seeded accounts *)

(** On an empty [users] table [_create_default_users] creates the
    administrator ["admin"] and the operator ["user"], who can log in
    with ["admin123"] and ["user123"]; on any other table it does
    nothing, so a second start changes nothing. *)
Theorem default_users_are_seeded_once
    (hash : string -> string -> string) (e1 e2 e3 e4 e : env)
    (ip ua : option string) (s : db) :
  (users s <> [] -> snd (_create_default_users hash e1 e2 s) = s) /\
  snd (_create_default_users hash e3 e4
         (snd (_create_default_users hash e1 e2 s)))
  = snd (_create_default_users hash e1 e2 s) /\
  (users s = [] ->
   map (fun r => (username r, role r))
     (users (snd (_create_default_users hash e1 e2 s)))
   = [("admin", "admin"); ("user", "user")] /\
   (exists info,
      fst (authenticate hash e "admin" "admin123" ip ua
             (snd (_create_default_users hash e1 e2 s))) = Some info /\
      ui_is_admin info = true) /\
   (exists info,
      fst (authenticate hash e "user" "user123" ip ua
             (snd (_create_default_users hash e1 e2 s))) = Some info /\
      ui_is_admin info = false)).
Proof.
  destruct s as [l logs k]. split; [|split].
  - simpl. intros Hne. unfold _create_default_users, bind, get_users. simpl.
    destruct l; [contradiction|reflexivity].
  - destruct l as [|x l]; [|reflexivity].
    unfold _create_default_users, bind, get_users. simpl.
    unfold create_user, bind, insert_user. simpl. reflexivity.
  - simpl. intros ->.
    unfold _create_default_users, bind, get_users. simpl.
    unfold create_user, bind, insert_user. simpl. split; [reflexivity|].
    unfold authenticate, bind, select_active_user, get_users, ret. simpl.
    rewrite !String.eqb_refl. simpl. split; eexists; split; reflexivity.
Qed.

Lemma default_users_are_seeded_once_witness :
  snd (_create_default_users toy_hash env_inside env_past seeded_db)
  = seeded_db /\
  map (fun r => (username r, role r))
    (users (snd (_create_default_users toy_hash env0 env1 empty_db)))
  = [("admin", "admin"); ("user", "user")].
Proof.
  destruct (default_users_are_seeded_once toy_hash env_inside env_past env0
              env1 env0 None None seeded_db) as (Hsame & _ & _).
  destruct (default_users_are_seeded_once toy_hash env0 env1 env0 env1 env0
              None None empty_db) as (_ & _ & Hseed).
  split; [apply Hsame; discriminate | apply Hseed; reflexivity].
Defined.

(** ** Views and permissions *)

Lemma authenticate_view
    (hash : string -> string -> string) (e : env) (name password : string)
    (ip ua : option string) (s : db) (info : user_info) :
  fst (authenticate hash e name password ip ua s) = Some info ->
  exists r,
    In r (users s) /\ username r = name /\ is_active r = true /\
    info = mk_user_info (row_id r) (username r) (role r) (full_name r)
             (String.eqb (role r) "admin") (_get_user_permissions (role r)).
Proof.
  unfold authenticate, bind. rewrite (select_active_state name s).
  destruct (fst (select_active_user name s)) as [r|] eqn:Hsel;
    [|discriminate].
  unfold select_active_user, bind, get_users, ret in Hsel. simpl in Hsel.
  apply find_some in Hsel. destruct Hsel as [Hin Hp].
  apply andb_true_iff in Hp. destruct Hp as [Hn Ha].
  apply String.eqb_eq in Hn.
  destruct (locked_at (now_auth e) (locked_until r)); [discriminate|].
  destruct (String.eqb (hash password (password_salt r)) (password_hash r)).
  - destruct (_reset_login_attempts (row_id r) s) as [u1 s1].
    destruct (_update_last_login e (row_id r) s1) as [u2 s2].
    simpl. intros [= <-]. exists r. repeat split; trivial.
  - destruct (_increment_login_attempts e (row_id r) s) as [u1 s1].
    discriminate.
Qed.

(** In every view a login returns, the username is the one that was
    asked for and belongs to an active row, [is_admin] tells whether
    the role is exactly admin, each of the ten flags reserved to
    administrators equals [is_admin], and the five remaining flags are
    true. *)
Theorem view_permissions_follow_is_admin
    (hash : string -> string -> string) (e : env) (name password : string)
    (ip ua : option string) (s : db) (info : user_info) :
  fst (authenticate hash e name password ip ua s) = Some info ->
  ui_username info = name /\
  ui_is_admin info = String.eqb (ui_role info) "admin" /\
  (forall key,
     In key [ "can_create"; "can_delete"; "can_manage_users";
              "can_manage_personnel"; "can_manage_vehicles";
              "can_manage_routes"; "can_export_data";
              "can_configure_system"; "can_view_logs";
              "can_backup_restore" ] ->
     perm key (ui_permissions info) = Some (ui_is_admin info)) /\
  (forall key,
     In key [ "can_read"; "can_update"; "can_manage_journal";
              "can_view_reports"; "can_generate_reports" ] ->
     perm key (ui_permissions info) = Some true).
Proof.
  intros Hres.
  destruct (authenticate_view hash e name password ip ua s info Hres)
    as (r & _ & Hn & _ & ->).
  simpl. split; [exact Hn|]. split; [reflexivity|].
  unfold _get_user_permissions.
  destruct (String.eqb (role r) "admin"); split; intros key Hin;
    simpl in Hin;
    repeat (destruct Hin as [<-|Hin]; [reflexivity|]); contradiction.
Qed.

Lemma view_permissions_follow_is_admin_witness :
  exists info,
    fst (authenticate toy_hash env0 "admin" "admin123" None None seeded_db)
    = Some info /\
    ui_is_admin info = true /\
    perm "can_delete" (ui_permissions info) = Some true.
Proof.
  eexists. split; [reflexivity|].
  destruct (view_permissions_follow_is_admin toy_hash env0 "admin" "admin123"
              None None seeded_db _ eq_refl) as (_ & Hadm & Hflags & _).
  split; [exact Hadm|]. rewrite (Hflags "can_delete"); [exact (f_equal Some Hadm)|].
  right. left. reflexivity.
Defined.

(** ** One audit entry per login *)

(** Each call of [authenticate] appends exactly one entry to
    [auth_logs]; it records the username as typed and the origin data
    as passed, is tagged [login] or [login_blocked], has [success] set
    exactly when a view is returned, and has no user id exactly when no
    active row has the username. *)
Theorem login_writes_one_audit_entry
    (hash : string -> string -> string) (e : env) (name password : string)
    (ip ua : option string) (s : db) :
  exists entry,
    auth_logs (snd (authenticate hash e name password ip ua s))
    = (auth_logs s ++ [entry])%list /\
    log_username entry = name /\
    ip_address entry = ip /\ user_agent entry = ua /\
    (action entry = "login" \/ action entry = "login_blocked") /\
    (success entry = true <->
     exists info, fst (authenticate hash e name password ip ua s) = Some info)
    /\
    (log_user_id entry = None <-> fst (select_active_user name s) = None).
Proof.
  destruct (fst (select_active_user name s)) as [r|] eqn:Hsel.
  - destruct (locked_at (now_auth e) (locked_until r)) eqn:Hlock.
    + rewrite (authenticate_blocked hash e name password ip ua s r Hsel Hlock).
      eexists. split; [reflexivity|]. simpl. repeat split; auto;
        try discriminate. intros (info & H). discriminate.
    + destruct (String.eqb (hash password (password_salt r))
                  (password_hash r)) eqn:Hh.
      * apply String.eqb_eq in Hh.
        rewrite (authenticate_match hash e name password ip ua s r Hsel Hlock
                   Hh).
        eexists. split; [reflexivity|]. simpl. repeat split; auto;
          try discriminate. intros _. eexists. reflexivity.
      * unfold authenticate, bind.
        rewrite (select_active_state name s), Hsel, Hlock, Hh.
        pose proof (increment_keeps_logs e (row_id r) s) as Hlogs.
        destruct (_increment_login_attempts e (row_id r) s) as [u s1].
        simpl in *. rewrite Hlogs.
        eexists. split; [reflexivity|]. simpl. repeat split; auto;
          try discriminate. intros (info & H). discriminate.
  - rewrite (authenticate_unknown hash e name password ip ua s Hsel).
    eexists. split; [reflexivity|]. simpl. repeat split; auto;
      try discriminate. intros (info & H). discriminate.
Qed.

(** ** Salts *)

Lemma choice_alnum (n : nat) : is_alnum (choice n alphabet) = true.
Proof.
  unfold choice. change (String.length alphabet) with 62%nat.
  assert (Hlt : (n mod 62 < 62)%nat) by (apply Nat.mod_upper_bound; lia).
  set (m := (n mod 62)%nat) in *. clearbody m.
  do 62 (destruct m as [|m]; [reflexivity|]). lia.
Qed.

(** Whatever the random source yields, a generated salt has sixteen
    characters and each is an ASCII letter or digit. *)
Theorem generated_salt_is_sixteen_alphanumerics (rand : nat -> nat) :
  String.length (_generate_salt rand) = 16%nat /\
  forall c, In c (list_ascii_of_string (_generate_salt rand)) ->
            is_alnum c = true.
Proof.
  unfold _generate_salt. split; [reflexivity|].
  intros c. rewrite list_ascii_of_string_of_list_ascii.
  intros Hin. apply in_map_iff in Hin. destruct Hin as (i & <- & _).
  apply choice_alnum.
Qed.

(** * Environment variables in the configuration *)

Lemma until_brace_split (s name after : string) :
  until_brace s = Some (name, after) ->
  s = name ++ String "}" after /\
  (forall c, In c (list_ascii_of_string name) -> c <> "}"%char) /\
  (String.length after < String.length s)%nat.
Proof.
  revert name. induction s as [|c s IH]; simpl; intros name; [discriminate|].
  destruct (Ascii.eqb c "}") eqn:Hc.
  - intros [= <- <-]. apply Ascii.eqb_eq in Hc. subst c.
    repeat split; [intros c []| lia].
  - destruct (until_brace s) as [[n a]|]; [|discriminate].
    intros [= <- <-]. destruct (IH n eq_refl) as (-> & Hno & Hlen).
    apply Ascii.eqb_neq in Hc.
    repeat split; [|simpl; lia].
    intros c' [<-|Hin]; [exact Hc | now apply Hno].
Qed.

Lemma until_brace_found (name after : string) :
  (forall c, In c (list_ascii_of_string name) -> c <> "}"%char) ->
  until_brace (name ++ String "}" after) = Some (name, after).
Proof.
  induction name as [|c name IH]; simpl; intros Hno; [reflexivity|].
  assert (Hc : Ascii.eqb c "}" = false)
    by (apply Ascii.eqb_neq, Hno; now left).
  rewrite Hc, IH; [reflexivity|]. intros c' Hin. apply Hno. now right.
Qed.

Lemma match_here_split (s name after : string) :
  match_here s = Some (name, after) ->
  s = "${" ++ name ++ String "}" after /\ name <> EmptyString /\
  (String.length after < String.length s)%nat.
Proof.
  unfold match_here. destruct s as [|c1 [|c2 rest]]; try discriminate.
  destruct (Ascii.eqb c1 "$") eqn:H1; [|discriminate].
  destruct (Ascii.eqb c2 "{") eqn:H2; [|discriminate]. simpl.
  destruct (until_brace rest) as [[[|c n] a]|] eqn:Hu; try discriminate.
  intros [= <- <-]. apply until_brace_split in Hu.
  destruct Hu as (-> & _ & Hlen).
  apply Ascii.eqb_eq in H1, H2. subst c1 c2.
  repeat split; [discriminate | simpl in *; lia].
Qed.

Lemma re_sub_fuel (env_vars : string -> option string) (f1 f2 : nat)
    (text : string) :
  (String.length text <= f1)%nat -> (String.length text <= f2)%nat ->
  re_sub env_vars f1 text = re_sub env_vars f2 text.
Proof.
  revert f2 text. induction f1 as [|f1 IH]; intros f2 text H1 H2.
  - destruct text; [|simpl in H1; lia]. now destruct f2.
  - destruct f2 as [|f2].
    + destruct text; [reflexivity | simpl in H2; lia].
    + simpl. destruct (match_here text) as [[name after]|] eqn:Hm.
      * apply match_here_split in Hm. destruct Hm as (_ & _ & Hlen).
        f_equal. apply IH; lia.
      * destruct text as [|c rest]; [reflexivity|].
        f_equal. apply IH; simpl in *; lia.
Qed.

Lemma replace_some (env_vars : string -> option string) (t : string) :
  _replace_env_vars env_vars (Some t)
  = Some (re_sub env_vars (String.length t) t).
Proof. now destruct t. Qed.

Lemma length_append (a b : string) :
  String.length (a ++ b) = (String.length a + String.length b)%nat.
Proof. induction a as [|c a IH]; simpl; [reflexivity | now rewrite IH]. Qed.

Lemma append_assoc (a b c : string) : ((a ++ b) ++ c = a ++ (b ++ c))%string.
Proof. induction a as [|x a IH]; simpl; [reflexivity | now rewrite IH]. Qed.

(** When no variable is set, every text comes back as it was: a
    placeholder of an unknown variable is left in place. *)
Theorem unknown_variables_are_left_in_place
    (env_vars : string -> option string) (text : option string) :
  (forall var_name, env_vars var_name = None) ->
  _replace_env_vars env_vars text = text.
Proof.
  intros Hnone. destruct text as [t|]; [|reflexivity].
  rewrite replace_some. f_equal.
  assert (H : forall fuel s, (String.length s <= fuel)%nat ->
                             re_sub env_vars fuel s = s).
  { induction fuel as [|fuel IH]; intros s Hlen; [reflexivity|].
    simpl. destruct (match_here s) as [[name after]|] eqn:Hm.
    - apply match_here_split in Hm. destruct Hm as (Hs & _ & Hl).
      unfold replace_match. rewrite Hnone, IH by lia.
      subst s. simpl. now rewrite append_assoc.
    - destruct s as [|c rest]; [reflexivity|].
      rewrite IH; [reflexivity | simpl in Hlen; lia]. }
  now apply H.
Qed.

Lemma unknown_variables_are_left_in_place_witness :
  _replace_env_vars (fun _ => None) (Some "${DB_HOST}:${DB_PORT}")
  = Some "${DB_HOST}:${DB_PORT}".
Proof.
  exact (unknown_variables_are_left_in_place (fun _ => None)
           (Some "${DB_HOST}:${DB_PORT}") (fun _ => eq_refl)).
Defined.

Lemma re_sub_plain_prefix (env_vars : string -> option string)
    (pre rest : string) :
  (forall c, In c (list_ascii_of_string pre) -> c <> "$"%char) ->
  re_sub env_vars (String.length (pre ++ rest)) (pre ++ rest)
  = pre ++ re_sub env_vars (String.length rest) rest.
Proof.
  induction pre as [|c pre IH]; intros Hno; [reflexivity|].
  assert (Hc : Ascii.eqb c "$" = false)
    by (apply Ascii.eqb_neq, Hno; now left).
  assert (Hm : match_here (String c (pre ++ rest)) = None).
  { unfold match_here. destruct (pre ++ rest); [reflexivity|].
    now rewrite Hc. }
  change (String c pre ++ rest) with (String c (pre ++ rest)).
  change (String.length (String c (pre ++ rest)))
    with (S (String.length (pre ++ rest))).
  cbn [re_sub]. rewrite Hm, IH; [reflexivity|].
  intros c' Hin. apply Hno. now right.
Qed.

(** A placeholder [${NAME}] whose name is not empty and has no closing
    brace, after a text without dollar sign: the text before it is
    kept, the placeholder becomes the value of the variable, as it is
    and without a second scan, or stays when the variable is not set,
    and the text after it is treated on its own. *)
Theorem placeholder_is_replaced_by_value
    (env_vars : string -> option string)
    (pre var_name post post' : string) :
  (forall c, In c (list_ascii_of_string pre) -> c <> "$"%char) ->
  var_name <> EmptyString ->
  (forall c, In c (list_ascii_of_string var_name) -> c <> "}"%char) ->
  _replace_env_vars env_vars (Some post) = Some post' ->
  _replace_env_vars env_vars
    (Some (pre ++ "${" ++ var_name ++ "}" ++ post))
  = Some (pre
          ++ match env_vars var_name with
             | Some value => value
             | None => "${" ++ var_name ++ "}"
             end
          ++ post').
Proof.
  intros Hpre Hne Hname Hpost.
  rewrite replace_some in Hpost |- *. injection Hpost as <-. f_equal.
  rewrite re_sub_plain_prefix by exact Hpre. f_equal.
  change ("${" ++ var_name ++ "}" ++ post)
    with (String "$" (String "{" (var_name ++ String "}" post))).
  assert (Hm : match_here
                 (String "$" (String "{" (var_name ++ String "}" post)))
               = Some (var_name, post)).
  { unfold match_here. simpl. rewrite until_brace_found by exact Hname.
    destruct var_name; [contradiction | reflexivity]. }
  remember (String.length
              (String "$" (String "{" (var_name ++ String "}" post))))
    as fuel eqn:Hfuel.
  simpl in Hfuel. rewrite length_append in Hfuel. simpl in Hfuel.
  destruct fuel as [|fuel]; [discriminate|].
  cbn [re_sub]. rewrite Hm. unfold replace_match. f_equal.
  apply re_sub_fuel; lia.
Qed.

Lemma placeholder_is_replaced_by_value_witness :
  _replace_env_vars sample_env (Some "tcp://${NESTED}:${DB_PORT}/")
  = Some "tcp://${DB_HOST}:5432/".
Proof.
  apply (placeholder_is_replaced_by_value sample_env "tcp://" "NESTED"
           ":${DB_PORT}/" ":5432/").
  - intros c Hin. simpl in Hin.
    repeat (destruct Hin as [<-|Hin]; [discriminate|]). contradiction.
  - discriminate.
  - intros c Hin. simpl in Hin.
    repeat (destruct Hin as [<-|Hin]; [discriminate|]). contradiction.
  - reflexivity.
Defined.

(** A text without dollar sign comes back as it was, whatever the
    variables are. *)
Theorem text_without_dollar_is_unchanged
    (env_vars : string -> option string) (text : string) :
  (forall c, In c (list_ascii_of_string text) -> c <> "$"%char) ->
  _replace_env_vars env_vars (Some text) = Some text.
Proof.
  intros Hno. rewrite replace_some. f_equal.
  pose proof (re_sub_plain_prefix env_vars text EmptyString Hno) as H.
  assert (Hnil : (text ++ "")%string = text).
  { clear. induction text as [|c t IH]; simpl; [reflexivity|].
    now rewrite IH. }
  rewrite Hnil in H. cbn [String.length re_sub] in H.
  rewrite Hnil in H. exact H.
Qed.

Lemma text_without_dollar_is_unchanged_witness :
  _replace_env_vars sample_env (Some "{DB_HOST}") = Some "{DB_HOST}".
Proof.
  apply (text_without_dollar_is_unchanged sample_env "{DB_HOST}").
  intros c Hin. simpl in Hin.
  repeat (destruct Hin as [<-|Hin]; [discriminate|]). contradiction.
Defined.

(** * Identity of accounts over time *)

Lemma in_map_eq {A} (f : user_row -> A) (l l' : list user_row)
    (r' : user_row) :
  map f l' = map f l -> In r' l' -> exists r, In r l /\ f r = f r'.
Proof.
  intros Heq Hin. apply (in_map f) in Hin. rewrite Heq in Hin.
  apply in_map_iff in Hin. destruct Hin as (r & Hf & Hr). eauto.
Qed.

Lemma update_rows_ident (name : string) (asgs : list assignment)
    (l l' : list user_row) :
  update_rows name asgs l = Some l' ->
  map (fun r => (row_id r, username r)) l'
  = map (fun r => (row_id r, username r)) l.
Proof.
  revert l'. induction l as [|r l IH]; simpl; intros l'.
  - now intros [= <-].
  - destruct (String.eqb (username r) name).
    + destruct (assign_all asgs r) as [r'|] eqn:Hr; [|discriminate].
      destruct (update_rows name asgs l) as [rest|]; [|discriminate].
      intros [= <-]. simpl. rewrite (IH rest eq_refl).
      apply assign_all_keeps in Hr. destruct Hr as [(Hid & Hn & _) _].
      now rewrite Hid, Hn.
    + destruct (update_rows name asgs l) as [rest|]; [|discriminate].
      intros [= <-]. simpl. now rewrite (IH rest eq_refl).
Qed.

(** Across a call of any public method the id counter does not go
    down, and each row present afterwards either was there before with
    the same id and the same username, or is new and has an id above
    the old counter: no method renames an account, renumbers it or
    hands out an id a second time. *)
Theorem accounts_keep_id_and_username
    (hash : string -> string -> string) (s s' : db) :
  step hash s s' ->
  users_seq s <= users_seq s' /\
  forall r',
    In r' (users s') ->
    (exists r,
       In r (users s) /\ row_id r = row_id r' /\ username r = username r')
    \/ users_seq s < row_id r'.
Proof.
  intros Hstep.
  assert (Hauth : forall e name password ip ua,
            users_seq (snd (authenticate hash e name password ip ua s))
            = users_seq s /\
            forall r',
              In r' (users (snd (authenticate hash e name password ip ua s)))
              -> exists r, In r (users s) /\ row_id r = row_id r' /\
                           username r = username r').
  { intros e name password ip ua. split.
    - destruct (fst (select_active_user name s)) as [r|] eqn:Hsel.
      + unfold authenticate, bind.
        rewrite (select_active_state name s), Hsel.
        destruct (locked_at (now_auth e) (locked_until r)); [reflexivity|].
        destruct (String.eqb (hash password (password_salt r))
                    (password_hash r)); [reflexivity|].
        unfold _increment_login_attempts, bind, update_where_id,
          select_by_id, get_users, put_users, ret. simpl.
        destruct (find _ _) as [x|]; [|reflexivity].
        now destruct (5 <=? login_attempts x).
      + now rewrite (authenticate_unknown hash e name password ip ua s Hsel).
    - intros r' Hin.
      destruct (in_map_eq profile _ _ r'
                  (profiles_after_login hash e name password ip ua s) Hin)
        as (r & Hr & Hp).
      exists r. unfold profile in Hp. injection Hp as Hid Hn _ _ _ _ _ _ _.
      auto. }
  destruct Hstep.
  - unfold create_user. destruct (valid_role rl) eqn:Hrl; cbn [negb].
    + unfold bind, insert_user. rewrite Hrl.
      destruct (username_taken name (users s)); simpl.
      * split; [lia|]. intros r' Hin. left. eauto.
      * split; [lia|]. intros r' Hin. apply in_app_or in Hin.
        destruct Hin as [Hin|[<-|[]]]; [left; eauto | right; simpl; lia].
    + simpl. split; [lia|]. intros r' Hin. left. eauto.
  - destruct (Hauth e name password ip ua) as [Hseq Hrows].
    split; [lia|]. intros r' Hin. left. now apply Hrows.
  - destruct (Hauth e name old_password None None) as [Hseq Hrows].
    unfold change_password, bind.
    destruct (authenticate hash e name old_password None None s)
      as [[ui|] s1]; simpl in *.
    + split; [lia|]. intros r' Hin. left.
      apply in_map_iff in Hin. destruct Hin as (r1 & <- & Hr1).
      destruct (Hrows r1 Hr1) as (r & Hr & Hid & Hn).
      exists r. now destruct (String.eqb (username r1) name).
    + split; [lia|]. intros r' Hin. left. now apply Hrows.
  - unfold update_user. destruct (update_fields k) as [|a asgs].
    + simpl. split; [lia|]. intros r' Hin. left. eauto.
    + unfold bind, update_set_where_username.
      destruct (update_rows name (a :: asgs) (users s)) as [rows|] eqn:Hl;
        simpl.
      * split; [lia|]. intros r' Hin. left.
        destruct (in_map_eq _ _ _ r' (update_rows_ident _ _ _ _ Hl) Hin)
          as (r & Hr & Hp).
        exists r. injection Hp as Hid Hn. auto.
      * split; [lia|]. intros r' Hin. left. eauto.
  - unfold delete_user, delete_where_username, bind, get_users, put_users,
      ret. simpl. split; [lia|]. intros r' Hin. left.
    apply filter_In in Hin. exists r'. tauto.
Qed.

Lemma accounts_keep_id_and_username_witness :
  users_seq seeded_db
  <= users_seq (snd (create_user toy_hash env_inside "dispatcher" "Secret2"
                       "user" None None seeded_db)) /\
  forall r',
    In r' (users (snd (create_user toy_hash env_inside "dispatcher" "Secret2"
                         "user" None None seeded_db))) ->
    (exists r,
       In r (users seeded_db) /\ row_id r = row_id r' /\
       username r = username r')
    \/ users_seq seeded_db < row_id r'.
Proof.
  exact (accounts_keep_id_and_username toy_hash seeded_db _
           (step_create_user toy_hash env_inside "dispatcher" "Secret2" "user"
              None None seeded_db)).
Defined.

Lemma generated_salt_is_sixteen_alphanumerics_witness :
  String.length (_generate_salt (fun i => (i * 37 + 5)%nat)) = 16%nat /\
  is_alnum "f" = true.
Proof.
  destruct (generated_salt_is_sixteen_alphanumerics
              (fun i => (i * 37 + 5)%nat)) as [Hlen Hall].
  split; [exact Hlen|]. apply Hall. left. reflexivity.
Defined.
